(** * MCQ generator (main.py): loaders, normalizer, fingerprint, adapter, formatter

    A shallow embedding of [main.py].  Python [str] values are lists of
    Unicode code points, [bytes] values are lists of [Byte.byte].  The
    libraries the program calls (PyMuPDF, requests, BeautifulSoup, educhain,
    streamlit) are collaborators: they are gathered in the record
    [Externals], and every call to one of them is written to an event log.
    UTF-8 and SHA-256, which the fingerprint rests on, are modelled in full
    and run on known values at the end of the file. *)

From Stdlib Require Import Strings.String Strings.Ascii Strings.Byte.
From Stdlib Require Import Numbers.DecimalString.
From Stdlib Require Import ZArith List Bool Lia.
Import ListNotations.
Local Open Scope Z_scope.

(** ** Python text *)

Module Text.

(** A code point, [0 .. 0x10FFFF] for a well-formed Python string. *)
Definition codepoint := Z.
Definition pystr := list codepoint.

(** A source literal (all literals of [main.py] are ASCII). *)
Fixpoint lit (s : string) : pystr :=
  match s with
  | EmptyString => []
  | String a r => Z.of_N (N_of_ascii a) :: lit r
  end.

Definition SP : codepoint := 32.

(** [Py_UNICODE_ISSPACE]: the test behind both [\s] of a [str] pattern and
    [str.strip()] without argument. *)
Definition isspace (c : codepoint) : bool :=
  ((9 <=? c) && (c <=? 13)) || ((28 <=? c) && (c <=? 32))
  || (c =? 133) || (c =? 160) || (c =? 5760)
  || ((8192 <=? c) && (c <=? 8202))
  || (c =? 8232) || (c =? 8233) || (c =? 8239) || (c =? 8287) || (c =? 12288).

(** [re.sub(r'\s+', ' ', text)].  The matcher walks the text from the left.
    [re_sub_ws] is the search for the start of the next match; at a
    whitespace character the greedy [\s+] starts, one space is emitted for
    the whole match, and [re_sub_in] consumes the rest of the match. *)
Fixpoint re_sub_ws (text : pystr) : pystr :=
  match text with
  | [] => []
  | c :: r => if isspace c then SP :: re_sub_in r else c :: re_sub_ws r
  end
with re_sub_in (text : pystr) : pystr :=
  match text with
  | [] => []
  | c :: r => if isspace c then re_sub_in r else c :: re_sub_ws r
  end.

(** [str.strip()]: skip whitespace from the left end, then from the right. *)
Fixpoint lstrip (text : pystr) : pystr :=
  match text with
  | [] => []
  | c :: r => if isspace c then lstrip r else text
  end.

Definition rstrip (text : pystr) : pystr := rev (lstrip (rev text)).

Definition strip (text : pystr) : pystr := rstrip (lstrip text).

(** [clean_string], the same three lines in each of the three loaders. *)
Definition clean_string (text : pystr) : pystr :=
  let text := re_sub_ws text in
  let text := strip text in
  text.

(** [sep.join(parts)]. *)
Fixpoint join (sep : pystr) (parts : list pystr) : pystr :=
  match parts with
  | [] => []
  | [p] => p
  | p :: rest => p ++ sep ++ join sep rest
  end.

(** *** The normalizer as the specification words it

    The text is cut into its maximal runs of whitespace and of
    non-whitespace characters; leading and trailing whitespace is removed;
    every whitespace run that is left becomes one space. *)

Fixpoint runs (s : pystr) : list (bool * pystr) :=
  match s with
  | [] => []
  | c :: r =>
      match runs r with
      | (b, run) :: rs =>
          if Bool.eqb b (isspace c) then (b, c :: run) :: rs
          else (isspace c, [c]) :: (b, run) :: rs
      | [] => [(isspace c, [c])]
      end
  end.

Definition collapse_run (r : bool * pystr) : pystr :=
  if fst r then [SP] else snd r.

Definition collapse_runs (s : pystr) : pystr :=
  flat_map collapse_run (runs s).

Definition all_space (s : pystr) : bool := forallb isspace s.

Fixpoint drop_trailing_space (s : pystr) : pystr :=
  match s with
  | [] => []
  | c :: r => if all_space s then [] else c :: drop_trailing_space r
  end.

Definition trim (s : pystr) : pystr := drop_trailing_space (lstrip s).

Definition normalize_spec (s : pystr) : pystr := collapse_runs (trim s).

(** A text in normal form: no whitespace at either end, and every
    whitespace character is a single space between two other characters. *)
Fixpoint collapsed (s : pystr) : bool :=
  match s with
  | [] => true
  | c :: r =>
      (if isspace c
       then (c =? SP) && match r with [] => true | d :: _ => negb (isspace d) end
       else true) && collapsed r
  end.

Definition starts_space (s : pystr) : bool :=
  match s with [] => false | c :: _ => isspace c end.

Definition ends_space (s : pystr) : bool := starts_space (rev s).

Definition normal (s : pystr) : bool :=
  collapsed s && negb (starts_space s) && negb (ends_space s).

End Text.

(** ** UTF-8, as [bytes.decode('utf-8')] and [str.encode()] apply it *)

Module Utf8.
Import Text.

Definition bytes := list byte.

Definition byte_val (b : byte) : Z := Z.of_N (Byte.to_N b).

Definition byte_of (z : Z) : byte :=
  match Byte.of_N (Z.to_N z) with
  | Some b => b
  | None => x00
  end.

Definition surrogate (c : codepoint) : bool := (55296 <=? c) && (c <=? 57343).

(** The bytes of one code point; the strict encoder refuses a surrogate
    ([UnicodeEncodeError]).  A number outside [0 .. 0x10FFFF] is no code
    point at all. *)
Definition encode_cp (c : codepoint) : option (list Z) :=
  if c <? 0 then None
  else if c <? 128 then Some [c]
  else if c <? 2048 then Some [192 + c / 64; 128 + c mod 64]
  else if c <? 65536 then
    if surrogate c then None
    else Some [224 + c / 4096; 128 + (c / 64) mod 64; 128 + c mod 64]
  else if c <=? 1114111 then
    Some [240 + c / 262144; 128 + (c / 4096) mod 64;
          128 + (c / 64) mod 64; 128 + c mod 64]
  else None.

(** [text.encode()] (UTF-8, errors='strict'). *)
Fixpoint utf8_encode (text : pystr) : option bytes :=
  match text with
  | [] => Some []
  | c :: r =>
      match encode_cp c, utf8_encode r with
      | Some bs, Some rest => Some (map byte_of bs ++ rest)
      | _, _ => None
      end
  end.

Definition continuation (x : Z) : bool := (128 <=? x) && (x <=? 191).

(** [data.decode('utf-8')] (errors='strict'): [None] stands for
    [UnicodeDecodeError].  Overlong forms, surrogates, values above
    U+10FFFF, stray continuation bytes and truncated sequences are refused. *)
Fixpoint utf8_decode (data : bytes) : option pystr :=
  match data with
  | [] => Some []
  | b0 :: r0 =>
      let x0 := byte_val b0 in
      if x0 <? 128 then option_map (cons x0) (utf8_decode r0)
      else if x0 <? 194 then None
      else if x0 <? 224 then
        match r0 with
        | b1 :: r1 =>
            let x1 := byte_val b1 in
            if continuation x1
            then option_map (cons ((x0 - 192) * 64 + (x1 - 128))) (utf8_decode r1)
            else None
        | _ => None
        end
      else if x0 <? 240 then
        match r0 with
        | b1 :: b2 :: r2 =>
            let x1 := byte_val b1 in
            let x2 := byte_val b2 in
            let c := (x0 - 224) * 4096 + (x1 - 128) * 64 + (x2 - 128) in
            if continuation x1 && continuation x2 && (2048 <=? c) && negb (surrogate c)
            then option_map (cons c) (utf8_decode r2)
            else None
        | _ => None
        end
      else if x0 <? 245 then
        match r0 with
        | b1 :: b2 :: b3 :: r3 =>
            let x1 := byte_val b1 in
            let x2 := byte_val b2 in
            let x3 := byte_val b3 in
            let c := (x0 - 240) * 262144 + (x1 - 128) * 4096
                     + (x2 - 128) * 64 + (x3 - 128) in
            if continuation x1 && continuation x2 && continuation x3
               && (65536 <=? c) && (c <=? 1114111)
            then option_map (cons c) (utf8_decode r3)
            else None
        | _ => None
        end
      else None
  end.

(** A byte string is valid UTF-8 when it is the encoding of some text. *)
Definition valid_utf8 (data : bytes) : Prop :=
  exists text, utf8_encode text = Some data.

(** A Unicode scalar value: a code point that is not a surrogate. *)
Definition scalar (c : codepoint) : Prop :=
  0 <= c <= 1114111 /\ surrogate c = false.

End Utf8.

(** ** SHA-256 (FIPS 180-4), as [hashlib.sha256(data).hexdigest()] *)

Module Sha256.
Import Text Utf8.

Definition w32 (x : Z) : Z := x mod 4294967296.

Definition rotr (n x : Z) : Z :=
  w32 (Z.lor (Z.shiftr x n) (Z.shiftl x (32 - n))).

Definition Ch (x y z : Z) : Z :=
  Z.lxor (Z.land x y) (Z.land (Z.lxor x 4294967295) z).

Definition Maj (x y z : Z) : Z :=
  Z.lxor (Z.lxor (Z.land x y) (Z.land x z)) (Z.land y z).

Definition Sigma0 (x : Z) : Z := Z.lxor (Z.lxor (rotr 2 x) (rotr 13 x)) (rotr 22 x).
Definition Sigma1 (x : Z) : Z := Z.lxor (Z.lxor (rotr 6 x) (rotr 11 x)) (rotr 25 x).
Definition sigma0 (x : Z) : Z := Z.lxor (Z.lxor (rotr 7 x) (rotr 18 x)) (Z.shiftr x 3).
Definition sigma1 (x : Z) : Z := Z.lxor (Z.lxor (rotr 17 x) (rotr 19 x)) (Z.shiftr x 10).

Definition is_prime (n : nat) : bool :=
  forallb (fun d => negb (Nat.eqb (n mod d) 0)) (seq 2 (n - 2)).

(** The first [n] primes (the sixty-fourth is 311). *)
Definition primes (n : nat) : list Z :=
  map Z.of_nat (firstn n (filter is_prime (seq 2 310))).

(** The integer cube root of [x], found bit by bit below bit [bits]. *)
Fixpoint cube_root (bits : nat) (x r : Z) : Z :=
  match bits with
  | O => r
  | S b =>
      let r' := r + 2 ^ Z.of_nat b in
      cube_root b x (if r' * r' * r' <=? x then r' else r)
  end.

(** The round constants: the first 32 bits of the fractional parts of the
    cube roots of the first 64 primes. *)
Definition K : list Z :=
  map (fun p => w32 (cube_root 40 (p * 2 ^ 96) 0)) (primes 64).

(** The initial hash value: the same of the square roots of the first 8. *)
Definition H0 : list Z :=
  map (fun p => w32 (Z.sqrt (p * 2 ^ 64))) (primes 8).

(** Big-endian bytes of [x], [n] of them. *)
Fixpoint be_bytes (n : nat) (x : Z) : list Z :=
  match n with
  | O => []
  | S m => (x / 256 ^ Z.of_nat m) mod 256 :: be_bytes m x
  end.

(** Padding: the bit 1, zeros up to 56 modulo 64, the bit length on 8 bytes. *)
Definition pad (msg : list Z) : list Z :=
  let len := Z.of_nat (length msg) in
  let zeros := Z.to_nat ((55 - len) mod 64) in
  msg ++ 128 :: repeat 0 zeros ++ be_bytes 8 (8 * len).

Fixpoint be_words (n : nat) (bs : list Z) : list Z :=
  match n, bs with
  | S m, b0 :: b1 :: b2 :: b3 :: r =>
      (((b0 * 256 + b1) * 256 + b2) * 256 + b3) :: be_words m r
  | _, _ => []
  end.

(** The message schedule, latest word first. *)
Fixpoint schedule (n : nat) (w : list Z) : list Z :=
  match n with
  | O => w
  | S m =>
      schedule m
        (w32 (sigma1 (nth 1 w 0) + nth 6 w 0 + sigma0 (nth 14 w 0) + nth 15 w 0) :: w)
  end.

Definition round (st : list Z) (kw : Z * Z) : list Z :=
  match st with
  | [a; b; c; d; e; f; g; h] =>
      let t1 := h + Sigma1 e + Ch e f g + fst kw + snd kw in
      let t2 := Sigma0 a + Maj a b c in
      [w32 (t1 + t2); a; b; c; w32 (d + t1); e; f; g]
  | _ => st
  end.

Definition compress (h : list Z) (block : list Z) : list Z :=
  let w := rev (schedule 48 (rev (be_words 16 block))) in
  let st := fold_left round (combine K w) h in
  map (fun p => w32 (fst p + snd p)) (combine h st).

Fixpoint blocks (n : nat) (h : list Z) (bs : list Z) : list Z :=
  match n with
  | O => h
  | S m => blocks m (compress h (firstn 64 bs)) (skipn 64 bs)
  end.

Definition sha256 (data : bytes) : list Z :=
  let p := pad (map byte_val data) in
  flat_map (be_bytes 4) (blocks (length p / 64) H0 p).

Definition hex_digit (d : Z) : codepoint :=
  if d <? 10 then 48 + d else 87 + d.

(** [.hexdigest()]: two lower-case hexadecimal digits per byte. *)
Definition hexdigest (digest : list Z) : pystr :=
  flat_map (fun b => [hex_digit (b / 16); hex_digit (b mod 16)]) digest.

End Sha256.

(** ** The program *)

Module App.
Import Text Utf8 Sha256.

(** Values that reach the dynamically typed parameters ([source],
    [learning_objective]): a [str], an uploaded file (a readable byte
    stream), [None], or the object bound to a module-level name. *)
Inductive value :=
| Str (s : pystr)
| File (data : bytes)
| NoneV
| Global (name : string).

Inductive exn :=
| ValueError (msg : string)
| NameError (name : string)
| AttributeError (attr : string)
| TypeError (msg : string)
| UnicodeDecodeError
| UnicodeEncodeError
| LibraryError (what : string).

(** [class MCQ(BaseModel)]. *)
Record MCQ := {
  question : pystr;
  options : list pystr;
  correct_answer : pystr
}.

(** The dict [{"doc_id": ..., "content": ...}] a loader returns. *)
Record Document := {
  doc_id : pystr;
  content : pystr
}.

(** The libraries behind the program.  A failure inside one of them is a
    [LibraryError] carrying what the library reported. *)
Record Externals := {
  PdfDoc : Type;
  Result : Type;
  (* fitz.open(stream=data, filetype="pdf") *)
  fitz_open : bytes -> string + PdfDoc;
  (* len(doc) *)
  page_count : PdfDoc -> nat;
  (* doc.load_page(n).get_text("text") *)
  page_text : PdfDoc -> nat -> pystr;
  (* requests.get(url).content *)
  requests_get : value -> string + bytes;
  (* BeautifulSoup(body, 'html.parser').get_text() *)
  soup_get_text : bytes -> pystr;
  (* qna_engine.generate_mcq(topic=, num=, difficulty_level=, prompt_template=) *)
  qna_generate_mcq : pystr -> Z -> pystr -> pystr -> string + Result;
  (* result.questions *)
  questions : Result -> string + list MCQ
}.

Inductive loader := PdfFileLoader | TextFileLoader | UrlLoader.

Inductive st_call :=
| st_title (body : string)
| st_selectbox (label : string)
| st_number_input (label : string)
| st_file_uploader (label : string)
| st_text_input (label : string)
| st_button (label : string)
| st_text (body : pystr).

(** The trace of a run, in order: each [load_data] call, each call into a
    library, each assignment to [os.environ], each streamlit call. *)
Inductive event :=
| LoadData (l : loader) (source : value)
| FitzOpen (data : bytes)
| RequestsGet (url : value)
| GenerateMcq (topic : pystr) (num : Z) (difficulty_level prompt_template : pystr)
| SetEnviron (key : string) (v : pystr)
| St (call : st_call).

(** A run: the events it caused, then the exception it raised or the value
    it returned. *)
Definition M (A : Type) : Type := list event * (exn + A).

Definition ret {A} (a : A) : M A := ([], inr a).
Definition raise {A} (e : exn) : M A := ([], inl e).
Definition emit (ev : event) : M unit := ([ev], inr tt).

Definition bind {A B} (m : M A) (f : A -> M B) : M B :=
  match m with
  | (log, inl e) => (log, inl e)
  | (log, inr a) => let (log', r) := f a in (log ++ log', r)
  end.

Notation "x <- m ;; k" := (bind m (fun x => k))
  (at level 61, m at next level, right associativity).
Notation "m ;; k" := (bind m (fun _ => k))
  (at level 61, right associativity).

(** A call into a library: logged, then its outcome. *)
Definition call {A} (ev : event) (r : string + A) : M A :=
  ([ev], match r with inl what => inl (LibraryError what) | inr a => inr a end).

Definition NL : pystr := [10].

Section Program.
Context (E : Externals).

(** [file.read()] *)
Definition read (file : value) : M bytes :=
  match file with
  | File data => ret data
  | _ => raise (AttributeError "read")
  end.

(** [hashlib.sha256(text.encode()).hexdigest()] *)
Definition sha256_hexdigest (text : pystr) : M pystr :=
  match utf8_encode text with
  | Some data => ret (hexdigest (sha256 data))
  | None => raise UnicodeEncodeError
  end.

(** The page loop of [PdfFileLoader.load_data]. *)
Definition pdf_pages (doc : PdfDoc E) : list pystr :=
  fold_left (fun all_content page_num =>
               let content := page_text E doc page_num in
               let content := clean_string content in
               all_content ++ [content])
            (seq 0 (page_count E doc)) [].

Definition Pdf_load_data (file : value) : M Document :=
  emit (LoadData PdfFileLoader file) ;;
  data <- read file ;;
  doc <- call (FitzOpen data) (fitz_open E data) ;;
  let all_content := pdf_pages doc in
  doc_id <- sha256_hexdigest (join (lit " ") all_content) ;;
  ret {| doc_id := doc_id; content := join (lit " ") all_content |}.

Definition Text_load_data (file : value) : M Document :=
  emit (LoadData TextFileLoader file) ;;
  data <- read file ;;
  content <- match utf8_decode data with
             | Some text => ret text
             | None => raise UnicodeDecodeError
             end ;;
  let content := clean_string content in
  doc_id <- sha256_hexdigest content ;;
  ret {| doc_id := doc_id; content := content |}.

Definition Url_load_data (url : value) : M Document :=
  emit (LoadData UrlLoader url) ;;
  response <- call (RequestsGet url) (requests_get E url) ;;
  let content := soup_get_text E response in
  let content := clean_string content in
  doc_id <- sha256_hexdigest content ;;
  ret {| doc_id := doc_id; content := content |}.

Definition default_template : pystr :=
  NL ++ lit "        Generate {num} multiple-choice question (MCQ) based on the given topic and level."
  ++ NL ++ lit "        Provide the question, four answer options, and the correct answer."
  ++ NL ++ NL ++ lit "        Topic: {topic} "
  ++ NL ++ lit "        Difficulty Level: {difficulty_level}"
  ++ NL ++ lit "        ".

(** [generate_mcq].  [kwargs] holds the names of the extra keyword
    arguments; the body reads neither them nor [learning_objective]. *)
Definition generate_mcq (topic : pystr) (num : Z) (learning_objective : value)
    (difficulty_level : pystr) (prompt_template : option pystr)
    (kwargs : list string) : M (Result E) :=
  let prompt_template :=
    match prompt_template with
    | None => default_template
    | Some t => t
    end in
  result <- call (GenerateMcq topic num difficulty_level prompt_template)
                 (qna_generate_mcq E topic num difficulty_level prompt_template) ;;
  ret result.

Definition unsupported : string :=
  "Unsupported source type. Please use 'pdf', 'text', or 'url'.".

Definition str_eqb (a b : pystr) : bool :=
  if list_eq_dec Z.eq_dec a b then true else false.

(** [loader.load_data(source)] *)
Definition load_data (l : loader) (source : value) : M Document :=
  match l with
  | PdfFileLoader => Pdf_load_data source
  | TextFileLoader => Text_load_data source
  | UrlLoader => Url_load_data source
  end.

(** [generate_mcqs_from_data].  The call at its end spreads [**kwargs]
    next to the positional [content], which Python refuses when [kwargs]
    names the parameter [topic]. *)
Definition generate_mcqs_from_data (source : value) (source_type : pystr)
    (num : Z) (learning_objective : value) (difficulty_level : pystr)
    (prompt_template : option pystr) (kwargs : list string) : M (Result E) :=
  loader <- (if str_eqb source_type (lit "pdf") then ret PdfFileLoader
             else if str_eqb source_type (lit "text") then ret TextFileLoader
             else if str_eqb source_type (lit "url") then ret UrlLoader
             else raise (ValueError unsupported)) ;;
  data <- load_data loader source ;;
  let content := content data in
  if existsb (String.eqb "topic") kwargs
  then raise (TypeError "generate_mcq() got multiple values for argument 'topic'")
  else generate_mcq content num learning_objective difficulty_level
                    prompt_template kwargs.

(** [chr(i)] *)
Definition chr (i : Z) : M pystr :=
  if (0 <=? i) && (i <=? 1114111) then ret [i]
  else raise (ValueError "chr() arg not in range(0x110000)").

(** [f"{i}"] for an [int] *)
Definition str_of_int (i : Z) : pystr := lit (NilZero.string_of_int (Z.to_int i)).

(** The inner loop of [format_mcqs]: [enumerate(mcq.options, j)]. *)
Fixpoint format_options (j : Z) (opts : list pystr) (formatted_output : pystr)
    : M pystr :=
  match opts with
  | [] => ret formatted_output
  | option :: rest =>
      letter <- chr (96 + j) ;;
      format_options (j + 1) rest
        (formatted_output ++ lit "   " ++ letter ++ lit ") " ++ option ++ NL)
  end.

(** The outer loop: [enumerate(mcqs, i)]. *)
Fixpoint format_loop (i : Z) (mcqs : list MCQ) (formatted_output : pystr)
    : M pystr :=
  match mcqs with
  | [] => ret formatted_output
  | mcq :: rest =>
      let formatted_output :=
        formatted_output ++ str_of_int i ++ lit ". " ++ question mcq ++ NL in
      formatted_output <- format_options 1 (options mcq) formatted_output ;;
      let formatted_output :=
        formatted_output ++ lit "   Answer: " ++ correct_answer mcq ++ NL ++ NL in
      format_loop (i + 1) rest formatted_output
  end.

Definition format_mcqs (mcqs : list MCQ) : M pystr := format_loop 1 mcqs [].

(** Names bound at the top level of [main.py], and the builtins it uses. *)
Definition module_globals : list string :=
  [ "hashlib"; "fitz"; "re"; "requests"; "BeautifulSoup"; "BaseModel"; "List";
    "qna_engine"; "os"; "st"; "load_dotenv"; "MCQ"; "MCQList"; "PdfFileLoader";
    "TextFileLoader"; "UrlLoader"; "generate_mcq"; "generate_mcqs_from_data";
    "format_mcqs"; "main"; "__name__" ]%string.

Definition builtins : list string :=
  [ "range"; "len"; "enumerate"; "chr"; "ValueError"; "str"; "int" ]%string.

(** A name that [main] never assigns is looked up among the module's
    globals and then the builtins. *)
Definition load_global (name : string) : M value :=
  if existsb (String.eqb name) (module_globals ++ builtins)
  then ret (Global name)
  else raise (NameError name).

(** What the user and the process environment give one run of [main]. *)
Record Session := {
  api_key : option pystr;        (* os.getenv("OPENAI_API_KEY") *)
  source_type : pystr;           (* first selectbox *)
  num_mcqs : Z;                  (* number_input *)
  difficulty_level : pystr;      (* second selectbox *)
  uploaded_file : option bytes;  (* file_uploader *)
  url : pystr;                   (* text_input *)
  button : bool                  (* button *)
}.

Definition truthy (s : pystr) : bool :=
  match s with [] => false | _ => true end.

Definition show (mcqs : Result E) : M unit :=
  qs <- match questions E mcqs with
        | inl what => raise (LibraryError what)
        | inr qs => ret qs
        end ;;
  formatted_mcqs <- format_mcqs qs ;;
  emit (St (st_text formatted_mcqs)).

Definition main (ui : Session) : M unit :=
  emit (St (st_title "MCQ Generator using Educhain")) ;;
  match api_key ui with
  | Some k => if truthy k then emit (SetEnviron "OPENAI_API_KEY" k) else ret tt
  | None => ret tt
  end ;;
  emit (St (st_selectbox "Select source type")) ;;
  emit (St (st_number_input "Number of MCQs")) ;;
  emit (St (st_selectbox "Difficulty Level")) ;;
  if str_eqb (source_type ui) (lit "pdf") then
    emit (St (st_file_uploader "Choose a PDF file")) ;;
    match uploaded_file ui with
    | Some f =>
        emit (St (st_button "Generate MCQs")) ;;
        if button ui then
          mcqs <- generate_mcqs_from_data (File f) (lit "pdf") (num_mcqs ui)
                    (Str []) (difficulty_level ui) None [] ;;
          show mcqs
        else ret tt
    | None => ret tt
    end
  else if str_eqb (source_type ui) (lit "text") then
    emit (St (st_file_uploader "Choose a text file")) ;;
    match uploaded_file ui with
    | Some f =>
        emit (St (st_button "Generate MCQs")) ;;
        if button ui then
          mcqs <- generate_mcqs_from_data (File f) (lit "text") (num_mcqs ui)
                    (Str []) (difficulty_level ui) None [] ;;
          show mcqs
        else ret tt
    | None => ret tt
    end
  else if str_eqb (source_type ui) (lit "url") then
    emit (St (st_text_input "Enter a URL")) ;;
    if truthy (url ui) then
      emit (St (st_button "Generate MCQs")) ;;
      if button ui then
        learning_objective <- load_global "learning_objective" ;;
        mcqs <- generate_mcqs_from_data (Str (url ui)) (lit "url") (num_mcqs ui)
                  learning_objective (difficulty_level ui) None [] ;;
        show mcqs
      else ret tt
    else ret tt
  else ret tt.

End Program.

(** The [source_type] string that selects a loader. *)
Definition type_name (l : loader) : pystr :=
  match l with
  | PdfFileLoader => lit "pdf"
  | TextFileLoader => lit "text"
  | UrlLoader => lit "url"
  end.

(** *** Reading the event log *)

Definition renders_text (ev : event) : bool :=
  match ev with
  | St (st_text _) => true
  | _ => false
  end.

Definition loads_or_generates (ev : event) : bool :=
  match ev with
  | LoadData _ _ | FitzOpen _ | RequestsGet _ | GenerateMcq _ _ _ _ => true
  | _ => false
  end.

Definition generation_calls (log : list event) : list event :=
  filter (fun ev => match ev with GenerateMcq _ _ _ _ => true | _ => false end) log.

(** [needle] occurs in [text]. *)
Definition embeds (text needle : pystr) : Prop :=
  exists before after, text = before ++ needle ++ after.

(** *** The formatter's output as the specification words it

    A numbered line, one line per option lettered a), b), c), ... in option
    order, the answer line, a blank line.  There is no letter for an option
    past the twenty-sixth. *)

Definition alphabet : pystr := lit "abcdefghijklmnopqrstuvwxyz".

Fixpoint option_lines (j : nat) (opts : list pystr) : option pystr :=
  match opts with
  | [] => Some []
  | opt :: rest =>
      match nth_error alphabet j, option_lines (S j) rest with
      | Some a, Some ls => Some (lit "   " ++ [a] ++ lit ") " ++ opt ++ NL ++ ls)
      | _, _ => None
      end
  end.

Definition question_block (i : nat) (q : MCQ) : option pystr :=
  match option_lines 0 (options q) with
  | Some ls =>
      Some (str_of_int (Z.of_nat i) ++ lit ". " ++ question q ++ NL
            ++ ls
            ++ lit "   Answer: " ++ correct_answer q ++ NL
            ++ NL)
  | None => None
  end.

Fixpoint blocks_from (i : nat) (qs : list MCQ) : option pystr :=
  match qs with
  | [] => Some []
  | q :: rest =>
      match question_block i q, blocks_from (S i) rest with
      | Some b, Some bs => Some (b ++ bs)
      | _, _ => None
      end
  end.

Definition lettered_rendering (qs : list MCQ) : option pystr := blocks_from 1 qs.

Definition formats_as_lettered (qs : list MCQ) : Prop :=
  exists out, format_mcqs qs = ret out /\ lettered_rendering qs = Some out.

(** *** The PDF loader as the specification words it: the page texts are
    concatenated, and the concatenation is normalized and fingerprinted. *)

Definition concatenated_pages (E : Externals) (doc : PdfDoc E) : pystr :=
  concat (map (page_text E doc) (seq 0 (page_count E doc))).

Definition normalizes_concatenation (E : Externals) (data : bytes) : Prop :=
  forall doc log d,
    fitz_open E data = inr doc ->
    Pdf_load_data E (File data) = (log, inr d) ->
    content d = clean_string (concatenated_pages E doc)
    /\ sha256_hexdigest (clean_string (concatenated_pages E doc)) = ret (doc_id d).

End App.

(** ** A small closed world to run the program in *)

Module Demo.
Import Text Utf8 Sha256 App.

Definition four_options : list pystr :=
  [lit "Paris"; lit "Rome"; lit "Oslo"; lit "Bern"].

(** A toy PDF: one page per byte, the page's text being that character.
    A toy web: the body of any [str] address is its own UTF-8 encoding, and
    its visible text the bytes read as Latin-1.  A toy engine: [num] copies
    of one question about the topic. *)
Definition world : Externals := {|
  PdfDoc := list pystr;
  Result := list MCQ;
  fitz_open := fun data =>
    match data with
    | [] => inl "cannot open empty document"%string
    | _ => inr (map (fun b => [byte_val b]) data)
    end;
  page_count := fun doc => length doc;
  page_text := fun doc n => nth n doc [];
  requests_get := fun u =>
    match u with
    | Str s =>
        match utf8_encode s with
        | Some body => inr body
        | None => inl "InvalidURL"%string
        end
    | _ => inl "MissingSchema"%string
    end;
  soup_get_text := fun body => map byte_val body;
  qna_generate_mcq := fun topic num _ _ =>
    inr (repeat {| question := topic; options := four_options;
                   correct_answer := lit "Paris" |} (Z.to_nat num));
  questions := fun r => inr r
|}.

(** The bytes of an ASCII literal. *)
Definition ascii_bytes (s : string) : bytes := map byte_of (lit s).

Definition paris : bytes :=
  match utf8_encode (lit "Paris  is the capital of France. ") with
  | Some b => b
  | None => []
  end.

Definition capital_question : MCQ := {|
  question := lit "What is the capital of France?";
  options := four_options;
  correct_answer := lit "Paris"
|}.

Definition many_options : MCQ := {|
  question := lit "q";
  options := repeat (lit "x") 27;
  correct_answer := lit "x"
|}.

Definition url_session : Session := {|
  api_key := None;
  source_type := lit "url";
  num_mcqs := 1;
  difficulty_level := lit "Easy";
  uploaded_file := None;
  url := lit "http://example.org";
  button := true
|}.

End Demo.

(** ** Further vocabulary for the properties below *)

Module More.
Import Text Utf8 Sha256 App Demo.

(** The characters of a text that are not whitespace, in order. *)
Definition visible (s : pystr) : pystr := filter (fun c => negb (isspace c)) s.

(** A lower-case hexadecimal digit. *)
Definition is_hex (c : codepoint) : bool :=
  ((48 <=? c) && (c <=? 57)) || ((97 <=? c) && (c <=? 102)).

(** The largest option count for which [chr(96 + j)] is defined throughout. *)
Definition within_chr (q : MCQ) : bool :=
  Z.of_nat (length (options q)) <=? 1114015.

Definition chr_error : exn := ValueError "chr() arg not in range(0x110000)".

Definition topic_error : exn :=
  TypeError "generate_mcq() got multiple values for argument 'topic'".

(** The widgets of the form, as opposed to what a run loads, generates or
    shows. *)
Definition is_widget (ev : event) : bool :=
  match ev with
  | St (st_text _) => false
  | St _ | SetEnviron _ _ => true
  | _ => false
  end.

(** A world whose PDF library opens every stream as a document without
    pages; otherwise as [world]. *)
Definition hollow : Externals := {|
  PdfDoc := list pystr;
  Result := list MCQ;
  fitz_open := fun _ => inr [];
  page_count := fun doc => length doc;
  page_text := fun doc n => nth n doc [];
  requests_get := requests_get world;
  soup_get_text := soup_get_text world;
  qna_generate_mcq := qna_generate_mcq world;
  questions := fun r => inr r
|}.

(** A world whose PDF library opens every stream as the document with the
    given page texts; otherwise as [world]. *)
Definition printed (pages : list pystr) : Externals := {|
  PdfDoc := list pystr;
  Result := list MCQ;
  fitz_open := fun _ => inr pages;
  page_count := fun doc => length doc;
  page_text := fun doc n => nth n doc [];
  requests_get := requests_get world;
  soup_get_text := soup_get_text world;
  qna_generate_mcq := qna_generate_mcq world;
  questions := fun r => inr r
|}.

(** Page texts as the PDF library extracts them: each line of a page ends in
    a newline, and a page without text gives the empty string. *)
Definition two_lines : list pystr := [lit "a" ++ NL; lit "b" ++ NL].

Definition blank_middle : list pystr := [lit "a" ++ NL; []; lit "b" ++ NL].

Definition text_session : Session := {|
  api_key := Some (lit "sk");
  source_type := lit "text";
  num_mcqs := 2;
  difficulty_level := lit "Easy";
  uploaded_file := Some paris;
  url := [];
  button := true
|}.

End More.

(** * Properties *)

(** ** The normalizer *)

Module TextFacts.
Import Text.

Lemma isspace_SP : isspace SP = true.
Proof. reflexivity. Qed.

Lemma starts_space_re_sub_in s : starts_space (re_sub_in s) = false.
Proof.
  induction s as [|c r IH]; simpl; [reflexivity|].
  destruct (isspace c) eqn:Hc; simpl; [exact IH | exact Hc].
Qed.

(** Inside a match only the leading whitespace differs from a fresh search. *)
Lemma re_sub_in_lstrip s : re_sub_in s = re_sub_ws (lstrip s).
Proof.
  induction s as [|c r IH]; simpl; [reflexivity|].
  destruct (isspace c) eqn:Hc; [exact IH|].
  simpl. rewrite Hc. reflexivity.
Qed.

Lemma lstrip_re_sub_in s : lstrip (re_sub_in s) = re_sub_in s.
Proof.
  pose proof (starts_space_re_sub_in s) as H.
  destruct (re_sub_in s) as [|d t]; simpl in *; [reflexivity|].
  rewrite H. reflexivity.
Qed.

Lemma lstrip_re_sub_ws s : lstrip (re_sub_ws s) = re_sub_ws (lstrip s).
Proof.
  destruct s as [|c r]; simpl; [reflexivity|].
  destruct (isspace c) eqn:Hc; simpl.
  - rewrite lstrip_re_sub_in. apply re_sub_in_lstrip.
  - rewrite !Hc. reflexivity.
Qed.

Lemma all_space_re_sub s :
  all_space (re_sub_ws s) = all_space s /\ all_space (re_sub_in s) = all_space s.
Proof.
  unfold all_space.
  induction s as [|c r [IH1 IH2]]; simpl; [split; reflexivity|].
  destruct (isspace c) eqn:Hc; simpl; rewrite ?Hc; simpl; auto.
Qed.

Lemma drop_trailing_all_space s :
  all_space s = true -> drop_trailing_space s = [].
Proof.
  destruct s as [|c r]; simpl; [reflexivity|].
  intros H. unfold all_space in *. simpl in *. rewrite H. reflexivity.
Qed.

Lemma drop_trailing_cons c r :
  all_space (c :: r) = false ->
  drop_trailing_space (c :: r) = c :: drop_trailing_space r.
Proof.
  intros H. simpl. unfold all_space in H. simpl in H.
  unfold all_space. simpl. rewrite H. reflexivity.
Qed.

Lemma all_space_cons c r : all_space (c :: r) = isspace c && all_space r.
Proof. reflexivity. Qed.

Lemma drop_trailing_re_sub s :
  drop_trailing_space (re_sub_ws s) = re_sub_ws (drop_trailing_space s)
  /\ drop_trailing_space (re_sub_in s) = re_sub_in (drop_trailing_space s).
Proof.
  induction s as [|c r [IH1 IH2]]; [split; reflexivity|].
  destruct (all_space (c :: r)) eqn:Hall.
  - rewrite (drop_trailing_all_space (c :: r) Hall).
    destruct (all_space_re_sub (c :: r)) as [H1 H2].
    rewrite Hall in H1, H2.
    rewrite (drop_trailing_all_space _ H1), (drop_trailing_all_space _ H2).
    split; reflexivity.
  - rewrite (drop_trailing_cons c r Hall).
    rewrite all_space_cons in Hall.
    cbn [re_sub_ws re_sub_in].
    destruct (isspace c) eqn:Hc; simpl in Hall.
    + assert (Hin : all_space (re_sub_in r) = false)
        by (rewrite (proj2 (all_space_re_sub r)); exact Hall).
      split.
      * rewrite drop_trailing_cons
          by (rewrite all_space_cons, Hin, isspace_SP; reflexivity).
        rewrite IH2. reflexivity.
      * exact IH2.
    + split; rewrite drop_trailing_cons
        by (rewrite all_space_cons, Hc; reflexivity);
        rewrite IH1; reflexivity.
Qed.

(** [rstrip], which scans from the right end, drops the trailing whitespace. *)
Lemma lstrip_app_last l c :
  lstrip (l ++ [c]) =
  if all_space l then (if isspace c then [] else [c]) else lstrip l ++ [c].
Proof.
  induction l as [|d t IH]; [simpl; destruct (isspace c); reflexivity|].
  cbn [app lstrip]. rewrite all_space_cons.
  destruct (isspace d) eqn:Hd; simpl; [exact IH | reflexivity].
Qed.

Lemma all_space_app a b : all_space (a ++ b) = all_space a && all_space b.
Proof. unfold all_space. apply forallb_app. Qed.

Lemma all_space_rev s : all_space (rev s) = all_space s.
Proof.
  induction s as [|c r IH]; simpl; [reflexivity|].
  rewrite all_space_app, IH, !all_space_cons. simpl.
  rewrite andb_true_r. apply andb_comm.
Qed.

Lemma rstrip_drop_trailing s : rstrip s = drop_trailing_space s.
Proof.
  unfold rstrip.
  induction s as [|c r IH]; [reflexivity|].
  cbn [rev]. rewrite lstrip_app_last, all_space_rev.
  destruct (all_space (c :: r)) eqn:Hall.
  - rewrite (drop_trailing_all_space _ Hall).
    rewrite all_space_cons in Hall. apply andb_prop in Hall as [Hc Hr].
    rewrite Hr, Hc. reflexivity.
  - rewrite (drop_trailing_cons _ _ Hall).
    rewrite all_space_cons in Hall.
    destruct (all_space r) eqn:Hr.
    + rewrite andb_true_r in Hall. rewrite Hall.
      rewrite (drop_trailing_all_space _ Hr). reflexivity.
    + rewrite rev_app_distr. simpl. rewrite IH. reflexivity.
Qed.

Lemma strip_trim s : strip s = trim s.
Proof. unfold strip, trim. apply rstrip_drop_trailing. Qed.

(** The matcher replaces exactly the maximal whitespace runs. *)
Lemma runs_head s :
  match runs s with
  | [] => s = []
  | (b, _) :: _ => b = starts_space s
  end.
Proof.
  destruct s as [|c r]; simpl; [reflexivity|].
  destruct (runs r) as [|[b run] rs]; [reflexivity|].
  destruct (Bool.eqb b (isspace c)) eqn:Hb; [|reflexivity].
  apply eqb_prop in Hb. exact Hb.
Qed.

Lemma re_sub_collapse_runs s :
  re_sub_ws s = collapse_runs s
  /\ re_sub_in s = if starts_space s then tl (collapse_runs s) else collapse_runs s.
Proof.
  unfold collapse_runs.
  induction s as [|c r [IH1 IH2]]; [split; reflexivity|].
  pose proof (runs_head r) as Hh.
  cbn [re_sub_ws re_sub_in runs starts_space].
  destruct (runs r) as [|[b run] rs].
  - subst r. destruct (isspace c) eqn:Hc; simpl; unfold collapse_run; simpl;
      rewrite ?Hc; split; reflexivity.
  - rewrite <- Hh in IH2.
    destruct (isspace c) eqn:Hc, b; simpl in *; unfold collapse_run in *;
      simpl in *; rewrite ?IH1, ?IH2; split; reflexivity.
Qed.

(** Normal forms. *)
Lemma collapsed_re_sub s :
  collapsed (re_sub_ws s) = true /\ collapsed (re_sub_in s) = true.
Proof.
  induction s as [|c r [IH1 IH2]]; [split; reflexivity|].
  cbn [re_sub_ws re_sub_in].
  destruct (isspace c) eqn:Hc.
  - split; [|exact IH2].
    cbn [collapsed]. rewrite isspace_SP, IH2, Z.eqb_refl.
    pose proof (starts_space_re_sub_in r) as Hs.
    destruct (re_sub_in r); simpl in *; [reflexivity|].
    rewrite Hs. reflexivity.
  - cbn [collapsed]. rewrite Hc, IH1. split; reflexivity.
Qed.

Lemma re_sub_collapsed s : collapsed s = true -> re_sub_ws s = s.
Proof.
  induction s as [|c r IH]; [reflexivity|].
  cbn [collapsed re_sub_ws]. intros H.
  apply andb_prop in H as [Hc Hr]. specialize (IH Hr).
  destruct (isspace c) eqn:Hsp.
  - apply andb_prop in Hc as [Heq Hnext].
    apply Z.eqb_eq in Heq. subst c. f_equal.
    destruct r as [|d t]; [reflexivity|].
    apply negb_true_iff in Hnext.
    cbn [re_sub_in re_sub_ws] in *. rewrite Hnext in *. exact IH.
  - f_equal. exact IH.
Qed.

Lemma collapsed_lstrip s : collapsed s = true -> collapsed (lstrip s) = true.
Proof.
  induction s as [|c r IH]; [reflexivity|].
  intros H. cbn [lstrip].
  destruct (isspace c); [|exact H].
  apply IH. cbn [collapsed] in H. apply andb_prop in H. tauto.
Qed.

Lemma collapsed_drop_trailing s :
  collapsed s = true -> collapsed (drop_trailing_space s) = true.
Proof.
  induction s as [|c r IH]; [reflexivity|].
  intros H.
  destruct (all_space (c :: r)) eqn:Hall.
  - rewrite (drop_trailing_all_space _ Hall). reflexivity.
  - rewrite (drop_trailing_cons _ _ Hall).
    cbn [collapsed] in *. apply andb_prop in H as [Hc Hr].
    rewrite (IH Hr), andb_true_r.
    destruct (isspace c) eqn:Hsp; [|reflexivity].
    apply andb_prop in Hc as [Heq Hnext]. rewrite Heq. simpl.
    rewrite all_space_cons, Hsp in Hall. simpl in Hall.
    destruct r as [|d t]; [discriminate Hall|].
    rewrite drop_trailing_cons; [exact Hnext|].
    rewrite all_space_cons. apply negb_true_iff in Hnext.
    rewrite Hnext. reflexivity.
Qed.

Lemma starts_space_lstrip s : starts_space (lstrip s) = false.
Proof.
  induction s as [|c r IH]; [reflexivity|].
  cbn [lstrip]. destruct (isspace c) eqn:Hc; [exact IH | exact Hc].
Qed.

Lemma lstrip_fixed s : starts_space s = false -> lstrip s = s.
Proof.
  destruct s as [|c r]; simpl; [reflexivity|]. intros H. rewrite H. reflexivity.
Qed.

Lemma starts_space_drop_trailing s :
  starts_space s = false -> starts_space (drop_trailing_space s) = false.
Proof.
  destruct s as [|c r]; [reflexivity|].
  intros H. simpl in H.
  rewrite drop_trailing_cons by (rewrite all_space_cons, H; reflexivity).
  exact H.
Qed.

Lemma all_space_drop_trailing s :
  all_space s = false -> all_space (drop_trailing_space s) = false.
Proof.
  induction s as [|c r IH]; [discriminate|].
  intros H. rewrite (drop_trailing_cons _ _ H).
  rewrite all_space_cons in *.
  destruct (isspace c); [|reflexivity].
  simpl in *. auto.
Qed.

Lemma drop_trailing_idem s :
  drop_trailing_space (drop_trailing_space s) = drop_trailing_space s.
Proof.
  induction s as [|c r IH]; [reflexivity|].
  destruct (all_space (c :: r)) eqn:Hall.
  - rewrite (drop_trailing_all_space _ Hall). reflexivity.
  - pose proof (all_space_drop_trailing _ Hall) as H.
    rewrite (drop_trailing_cons _ _ Hall) in *.
    rewrite (drop_trailing_cons _ _ H), IH. reflexivity.
Qed.

Lemma trim_idem s : trim (trim s) = trim s.
Proof.
  unfold trim.
  rewrite (lstrip_fixed (drop_trailing_space (lstrip s))).
  - apply drop_trailing_idem.
  - apply starts_space_drop_trailing, starts_space_lstrip.
Qed.

Lemma clean_string_trim s : clean_string s = trim (re_sub_ws s).
Proof. unfold clean_string. apply strip_trim. Qed.

Lemma collapsed_clean_string s : collapsed (clean_string s) = true.
Proof.
  rewrite clean_string_trim. unfold trim.
  apply collapsed_drop_trailing, collapsed_lstrip, collapsed_re_sub.
Qed.

Lemma ends_space_drop_trailing s : ends_space (drop_trailing_space s) = false.
Proof.
  unfold ends_space.
  induction s as [|c r IH]; [reflexivity|].
  destruct (all_space (c :: r)) eqn:Hall.
  - rewrite (drop_trailing_all_space _ Hall). reflexivity.
  - rewrite (drop_trailing_cons _ _ Hall). cbn [rev].
    rewrite all_space_cons in Hall.
    destruct (rev (drop_trailing_space r)) as [|d t] eqn:Hrev.
    + simpl. apply (f_equal (@rev _)) in Hrev. rewrite rev_involutive in Hrev.
      simpl in Hrev.
      destruct (isspace c) eqn:Hc; [|reflexivity].
      simpl in Hall. destruct r as [|e u]; [discriminate|].
      destruct (all_space (e :: u)) eqn:Hr; [discriminate|].
      rewrite (drop_trailing_cons _ _ Hr) in Hrev. discriminate.
    + simpl in *. exact IH.
Qed.

Lemma normal_clean_string s : normal (clean_string s) = true.
Proof.
  unfold normal. rewrite collapsed_clean_string.
  rewrite clean_string_trim. unfold trim.
  rewrite starts_space_drop_trailing by apply starts_space_lstrip.
  rewrite ends_space_drop_trailing. reflexivity.
Qed.

(** Normalizing around a separating space.  Two texts that each hold some
    visible character are normalized independently of one another. *)
Lemma re_sub_around_space a b :
  re_sub_ws (a ++ SP :: b)
  = drop_trailing_space (re_sub_ws a) ++ SP :: re_sub_in b
  /\ re_sub_in (a ++ SP :: b)
     = if all_space a then re_sub_in b
       else drop_trailing_space (re_sub_in a) ++ SP :: re_sub_in b.
Proof.
  induction a as [|c r [IH1 IH2]].
  - cbn [app re_sub_ws re_sub_in]. rewrite isspace_SP. split; reflexivity.
  - cbn [app re_sub_ws re_sub_in]. rewrite all_space_cons.
    destruct (isspace c) eqn:Hc; cbn [andb].
    + rewrite IH2. split; [|reflexivity].
      destruct (all_space r) eqn:Hr.
      * rewrite drop_trailing_all_space; [reflexivity|].
        rewrite all_space_cons, isspace_SP, (proj2 (all_space_re_sub r)).
        exact Hr.
      * rewrite drop_trailing_cons; [reflexivity|].
        rewrite all_space_cons, isspace_SP, (proj2 (all_space_re_sub r)).
        exact Hr.
    + rewrite IH1.
      rewrite drop_trailing_cons by (rewrite all_space_cons, Hc; reflexivity).
      split; reflexivity.
Qed.

Lemma lstrip_app a b : all_space a = false -> lstrip (a ++ b) = lstrip a ++ b.
Proof.
  induction a as [|c r IH]; [discriminate|].
  rewrite all_space_cons. cbn [app lstrip].
  destruct (isspace c); [exact IH | reflexivity].
Qed.

Lemma drop_trailing_app a b :
  all_space b = false ->
  drop_trailing_space (a ++ b) = a ++ drop_trailing_space b.
Proof.
  intros Hb. induction a as [|c r IH]; [reflexivity|].
  cbn [app]. rewrite drop_trailing_cons, IH; [reflexivity|].
  rewrite all_space_cons, all_space_app, Hb, andb_false_r, andb_false_r.
  reflexivity.
Qed.

Lemma lstrip_all_space s : all_space s = true -> lstrip s = [].
Proof.
  induction s as [|c r IH]; [reflexivity|].
  rewrite all_space_cons. cbn [lstrip].
  destruct (isspace c); [exact IH | discriminate].
Qed.

Lemma lstrip_drop_trailing s :
  lstrip (drop_trailing_space s) = drop_trailing_space (lstrip s).
Proof.
  induction s as [|c r IH]; [reflexivity|].
  destruct (all_space (c :: r)) eqn:Hall.
  - rewrite (drop_trailing_all_space _ Hall), (lstrip_all_space _ Hall).
    reflexivity.
  - rewrite (drop_trailing_cons _ _ Hall). cbn [lstrip].
    destruct (isspace c); [exact IH|].
    rewrite (drop_trailing_cons _ _ Hall). reflexivity.
Qed.

Lemma clean_string_around_space a b :
  all_space a = false -> all_space b = false ->
  clean_string (a ++ SP :: b) = clean_string a ++ SP :: clean_string b.
Proof.
  intros Ha Hb. rewrite !clean_string_trim. unfold trim.
  rewrite (proj1 (re_sub_around_space a b)).
  assert (Hin : all_space (re_sub_in b) = false)
    by (rewrite (proj2 (all_space_re_sub b)); exact Hb).
  rewrite lstrip_app
    by (apply all_space_drop_trailing;
        rewrite (proj1 (all_space_re_sub a)); exact Ha).
  rewrite drop_trailing_app
    by (rewrite all_space_cons, isspace_SP; exact Hin).
  rewrite drop_trailing_cons
    by (rewrite all_space_cons, isspace_SP; exact Hin).
  rewrite lstrip_drop_trailing, !lstrip_re_sub_ws, <- !re_sub_in_lstrip.
  reflexivity.
Qed.

Lemma all_space_join p rest :
  all_space p = false -> all_space (join [SP] (p :: rest)) = false.
Proof.
  intros Hp. destruct rest; cbn [join]; [exact Hp|].
  rewrite all_space_app, Hp. reflexivity.
Qed.

Lemma clean_string_join pages :
  Forall (fun p => all_space p = false) pages ->
  clean_string (join [SP] pages) = join [SP] (map clean_string pages).
Proof.
  induction 1 as [|p rest Hp Hrest IH]; [reflexivity|].
  destruct rest as [|q rest]; [reflexivity|].
  inversion Hrest as [|? ? Hq _]; subst.
  change (join [SP] (p :: q :: rest)) with (p ++ SP :: join [SP] (q :: rest)).
  rewrite clean_string_around_space, IH;
    [reflexivity | exact Hp | apply all_space_join; exact Hq].
Qed.

(** The normalizer keeps the characters of its input and adds only spaces. *)
Section Preserved.
Context (P : codepoint -> Prop) (P_space : P SP).

Lemma Forall_re_sub s :
  Forall P s -> Forall P (re_sub_ws s) /\ Forall P (re_sub_in s).
Proof.
  induction 1 as [|c r Hc Hr [IH1 IH2]]; [split; constructor|].
  cbn [re_sub_ws re_sub_in]. destruct (isspace c); split; auto.
Qed.

Lemma Forall_lstrip s : Forall P s -> Forall P (lstrip s).
Proof.
  induction 1 as [|c r Hc Hr IH]; [constructor|].
  cbn [lstrip]. destruct (isspace c); auto.
Qed.

Lemma Forall_drop_trailing s : Forall P s -> Forall P (drop_trailing_space s).
Proof.
  induction 1 as [|c r Hc Hr IH]; [constructor|].
  cbn [drop_trailing_space]. destruct (all_space (c :: r)); auto.
Qed.

Lemma Forall_clean_string s : Forall P s -> Forall P (clean_string s).
Proof.
  intros H. rewrite clean_string_trim. unfold trim.
  apply Forall_drop_trailing, Forall_lstrip, Forall_re_sub, H.
Qed.

End Preserved.

(** C2. The Normalizer is total, and its output is the input with every
    maximal whitespace run replaced by one space and the whitespace at both
    ends removed, whichever of the two is done first; the empty string is
    mapped to itself and "a   b\n\tc" to "a b c". *)
Theorem clean_string_normalizes :
  (forall s, clean_string s = normalize_spec s)
  /\ (forall s, clean_string s = trim (collapse_runs s))
  /\ clean_string [] = []
  /\ clean_string (lit "a   b" ++ [10; 9] ++ lit "c") = lit "a b c".
Proof.
  split; [|split; [|split; reflexivity]].
  - intros s. rewrite clean_string_trim. unfold normalize_spec, trim.
    rewrite <- (proj1 (re_sub_collapse_runs _)).
    rewrite <- (proj1 (drop_trailing_re_sub _)), lstrip_re_sub_ws.
    reflexivity.
  - intros s. rewrite clean_string_trim.
    rewrite (proj1 (re_sub_collapse_runs s)). reflexivity.
Qed.

(** C3. The Normalizer is idempotent. *)
Theorem clean_string_idempotent :
  forall s, clean_string (clean_string s) = clean_string s.
Proof.
  intros s.
  rewrite (clean_string_trim (clean_string s)).
  rewrite (re_sub_collapsed _ (collapsed_clean_string s)).
  rewrite clean_string_trim. apply trim_idem.
Qed.

End TextFacts.

(** ** UTF-8: the decoder accepts exactly the encodings *)

Module Utf8Facts.
Import Text Utf8.

Ltac dm := Z.div_mod_to_equations; lia.

Ltac settle :=
  repeat match goal with
  | |- context [?a <? ?b] =>
      first [ rewrite (proj2 (Z.ltb_lt a b)) by dm
            | rewrite (proj2 (Z.ltb_ge a b)) by dm ]
  | |- context [?a <=? ?b] =>
      first [ rewrite (proj2 (Z.leb_le a b)) by dm
            | rewrite (proj2 (Z.leb_gt a b)) by dm ]
  end.

Lemma byte_val_range b : 0 <= byte_val b <= 255.
Proof.
  unfold byte_val. pose proof (Byte.to_N_bounded b). lia.
Qed.

Lemma byte_of_val b : byte_of (byte_val b) = b.
Proof.
  unfold byte_of, byte_val. rewrite N2Z.id, Byte.of_to_N. reflexivity.
Qed.

Lemma byte_val_of z : 0 <= z <= 255 -> byte_val (byte_of z) = z.
Proof.
  intros H. unfold byte_of, byte_val.
  destruct (Byte.of_N (Z.to_N z)) as [b|] eqn:Hb.
  - apply Byte.to_of_N in Hb. rewrite Hb. lia.
  - apply Byte.of_N_None_iff in Hb. lia.
Qed.

Lemma encode_cp_scalar c l : encode_cp c = Some l -> scalar c.
Proof.
  unfold encode_cp, scalar, surrogate.
  repeat match goal with
         | |- context [if ?b then _ else _] => destruct b eqn:?
         end; intros H; try discriminate H; lia.
Qed.

Lemma some_eq {A} (x y : A) : Some x = Some y -> x = y.
Proof. congruence. Qed.

Lemma decode_encoded c l rest :
  encode_cp c = Some l ->
  utf8_decode (map byte_of l ++ rest) = option_map (cons c) (utf8_decode rest).
Proof.
  unfold encode_cp.
  destruct (c <? 0) eqn:H0; [discriminate|].
  destruct (c <? 128) eqn:H1; [|destruct (c <? 2048) eqn:H2;
    [|destruct (c <? 65536) eqn:H3;
      [destruct (surrogate c) eqn:Hs; [discriminate|]
      |destruct (c <=? 1114111) eqn:H4; [|discriminate]]]];
    intros H; apply some_eq in H; subst l; cbn [map app utf8_decode];
    rewrite ?byte_val_of by dm; unfold continuation.
  - rewrite H1. reflexivity.
  - settle. cbn [andb]. do 2 f_equal. dm.
  - assert (Hc : (224 + c / 4096 - 224) * 4096
                 + (128 + c / 64 mod 64 - 128) * 64 + (128 + c mod 64 - 128) = c)
      by dm.
    rewrite Hc, Hs. settle. reflexivity.
  - assert (Hc : (240 + c / 262144 - 240) * 262144
                 + (128 + c / 4096 mod 64 - 128) * 4096
                 + (128 + c / 64 mod 64 - 128) * 64 + (128 + c mod 64 - 128) = c)
      by dm.
    rewrite Hc. settle. reflexivity.
Qed.

Lemma decode_encode text data :
  utf8_encode text = Some data -> utf8_decode data = Some text.
Proof.
  revert data. induction text as [|c r IH]; intros data H; simpl in H.
  - injection H as <-. reflexivity.
  - destruct (encode_cp c) as [l|] eqn:Hc; [|discriminate].
    destruct (utf8_encode r) as [rest|]; [|discriminate].
    injection H as <-.
    rewrite (decode_encoded _ _ _ Hc), (IH rest eq_refl). reflexivity.
Qed.

Lemma encode_cons c l r rest :
  encode_cp c = Some l -> utf8_encode r = Some rest ->
  utf8_encode (c :: r) = Some (map byte_of l ++ rest).
Proof. intros H1 H2. simpl. rewrite H1, H2. reflexivity. Qed.

Lemma option_map_cons_inv (c : Z) o text :
  option_map (cons c) o = Some text ->
  exists r, o = Some r /\ text = c :: r.
Proof.
  destruct o as [r|]; simpl; intros H; [|discriminate].
  injection H as <-. eauto.
Qed.

Lemma encode_decode_bounded n : forall data text,
  (length data <= n)%nat ->
  utf8_decode data = Some text -> utf8_encode text = Some data.
Proof.
  induction n as [|n IH]; intros data text Hlen H.
  - destruct data; [|simpl in Hlen; lia]. injection H as <-. reflexivity.
  - destruct data as [|b0 r0]; [injection H as <-; reflexivity|].
    cbn [utf8_decode] in H. cbv zeta in H.
    pose proof (byte_val_range b0) as R0.
    simpl in Hlen.
    destruct (byte_val b0 <? 128) eqn:T1.
    { apply option_map_cons_inv in H as (r & Hr & ->).
      apply IH in Hr; [|lia].
      etransitivity; [eapply (encode_cons _ [byte_val b0]); [|exact Hr]|].
      - unfold encode_cp. rewrite T1. settle. reflexivity.
      - simpl. rewrite byte_of_val. reflexivity. }
    destruct (byte_val b0 <? 194) eqn:T2; [discriminate|].
    destruct (byte_val b0 <? 224) eqn:T3.
    { destruct r0 as [|b1 r1]; [discriminate|].
      pose proof (byte_val_range b1) as R1.
      unfold continuation in H.
      destruct ((128 <=? byte_val b1) && (byte_val b1 <=? 191)) eqn:C1;
        [|discriminate].
      apply option_map_cons_inv in H as (r & Hr & ->).
      simpl in Hlen. apply IH in Hr; [|lia].
      etransitivity;
        [eapply (encode_cons _ [byte_val b0; byte_val b1]); [|exact Hr]|].
      - unfold encode_cp. settle. repeat f_equal; dm.
      - simpl. rewrite !byte_of_val. reflexivity. }
    destruct (byte_val b0 <? 240) eqn:T4.
    { destruct r0 as [|b1 [|b2 r2]]; try discriminate.
      pose proof (byte_val_range b1) as R1.
      pose proof (byte_val_range b2) as R2.
      unfold continuation in H.
      match type of H with (if ?t then _ else _) = _ =>
        destruct t eqn:C1; [|discriminate] end.
      apply option_map_cons_inv in H as (r & Hr & ->).
      simpl in Hlen. apply IH in Hr; [|lia].
      apply andb_prop in C1 as [C1 Hs]. apply negb_true_iff in Hs.
      etransitivity;
        [eapply (encode_cons _ [byte_val b0; byte_val b1; byte_val b2]);
         [|exact Hr]|].
      - unfold encode_cp. rewrite Hs. settle. repeat f_equal; dm.
      - simpl. rewrite !byte_of_val. reflexivity. }
    destruct (byte_val b0 <? 245) eqn:T5; [|discriminate].
    destruct r0 as [|b1 [|b2 [|b3 r3]]]; try discriminate.
    pose proof (byte_val_range b1) as R1.
    pose proof (byte_val_range b2) as R2.
    pose proof (byte_val_range b3) as R3.
    unfold continuation in H.
    match type of H with (if ?t then _ else _) = _ =>
      destruct t eqn:C1; [|discriminate] end.
    apply option_map_cons_inv in H as (r & Hr & ->).
    simpl in Hlen. apply IH in Hr; [|lia].
    etransitivity;
      [eapply (encode_cons _ [byte_val b0; byte_val b1; byte_val b2; byte_val b3]);
       [|exact Hr]|].
    + unfold encode_cp. settle. repeat f_equal; dm.
    + simpl. rewrite !byte_of_val. reflexivity.
Qed.

Lemma encode_decode data text :
  utf8_decode data = Some text -> utf8_encode text = Some data.
Proof. apply (encode_decode_bounded (length data)). lia. Qed.

(** The decoder fails exactly on the byte strings that are not valid UTF-8. *)
Lemma utf8_decode_valid data :
  valid_utf8 data <-> exists text, utf8_decode data = Some text.
Proof.
  split; intros [text H]; exists text;
    [apply decode_encode | apply encode_decode]; exact H.
Qed.

Lemma utf8_decode_invalid data :
  ~ valid_utf8 data <-> utf8_decode data = None.
Proof.
  rewrite utf8_decode_valid. split.
  - intros H. destruct (utf8_decode data) as [t|]; [|reflexivity].
    exfalso. apply H. eauto.
  - intros H [t Ht]. congruence.
Qed.

Lemma utf8_encode_scalar text :
  Forall scalar text <-> exists data, utf8_encode text = Some data.
Proof.
  induction text as [|c r IH]; simpl.
  - split; [eauto | constructor].
  - split.
    + intros H. inversion H as [|? ? Hc Hr]; subst.
      apply IH in Hr as [rest Hrest]. rewrite Hrest.
      assert (exists l, encode_cp c = Some l) as [l ->]; [|eauto].
      destruct Hc as [Hrange Hsur]. unfold encode_cp. rewrite Hsur.
      repeat match goal with
             | |- context [if ?b then _ else _] => destruct b eqn:?
             end; eauto; lia.
    + intros [data H].
      destruct (encode_cp c) as [l|] eqn:Hc; [|discriminate].
      destruct (utf8_encode r) as [rest|] eqn:Hr; [|discriminate].
      constructor; [eapply encode_cp_scalar; eauto | apply IH; eauto].
Qed.

End Utf8Facts.

(** ** The loaders, the adapter, the formatter and the form *)

Module AppFacts.
Import Text Utf8 Sha256 App Demo More TextFacts Utf8Facts.

Lemma bind_raise {A B} log e (f : A -> M B) : bind (log, inl e) f = (log, inl e).
Proof. reflexivity. Qed.

Lemma bind_value {A B} log (a : A) (f : A -> M B) :
  bind (log, inr a) f = (log ++ fst (f a), snd (f a)).
Proof. unfold bind. destruct (f a). reflexivity. Qed.

Lemma bind_ret {A B} (a : A) (f : A -> M B) : bind (ret a) f = f a.
Proof. unfold bind, ret. destruct (f a). reflexivity. Qed.

Lemma bind_returns {A B} (m : M A) (f : A -> M B) log b :
  bind m f = (log, inr b) ->
  exists l1 a l2, m = (l1, inr a) /\ f a = (l2, inr b) /\ log = l1 ++ l2.
Proof.
  destruct m as [l1 [e|a]]; [discriminate|].
  rewrite bind_value. destruct (f a) as [l2 r] eqn:Hf. simpl.
  intros H. injection H as <- ->. eauto 6.
Qed.

Lemma bind_raises {A B} (m : M A) (f : A -> M B) log e :
  bind m f = (log, inl e) ->
  m = (log, inl e)
  \/ exists l1 a l2, m = (l1, inr a) /\ f a = (l2, inl e) /\ log = l1 ++ l2.
Proof.
  destruct m as [l1 [e'|a]].
  - rewrite bind_raise. intros H. injection H as <- <-. left. reflexivity.
  - rewrite bind_value. destruct (f a) as [l2 r] eqn:Hf. simpl.
    intros H. injection H as <- ->. right. eauto 6.
Qed.

Lemma sha256_hexdigest_returns text log id :
  sha256_hexdigest text = (log, inr id) ->
  log = [] /\ exists data, utf8_encode text = Some data
                           /\ id = hexdigest (sha256 data).
Proof.
  unfold sha256_hexdigest. destruct (utf8_encode text) as [data|].
  - intros H. injection H as <- <-. eauto.
  - discriminate.
Qed.

(** A record that fingerprints [c] under the identifier it returns. *)
Lemma fingerprinted_record c log d :
  (doc_id <- sha256_hexdigest c ;; ret {| doc_id := doc_id; content := c |})
  = (log, inr d) ->
  content d = c
  /\ exists data, utf8_encode c = Some data /\ doc_id d = hexdigest (sha256 data).
Proof.
  intros H. apply bind_returns in H as (l1 & id & l2 & H1 & H2 & _).
  apply sha256_hexdigest_returns in H1 as (_ & data & Henc & ->).
  injection H2 as _ <-. simpl. eauto.
Qed.

Lemma fold_left_snoc {A B} (f : A -> B) (l : list A) (acc : list B) :
  fold_left (fun all x => all ++ [f x]) l acc = acc ++ map f l.
Proof.
  revert acc. induction l as [|x r IH]; intros acc; simpl.
  - symmetry. apply app_nil_r.
  - rewrite IH, <- app_assoc. reflexivity.
Qed.

(** The page loop visits the pages in page order and cleans each one. *)
Lemma pdf_pages_map E (doc : PdfDoc E) :
  pdf_pages E doc
  = map (fun n => clean_string (page_text E doc n)) (seq 0 (page_count E doc)).
Proof. unfold pdf_pages. apply (fold_left_snoc (fun n => clean_string (page_text E doc n))). Qed.

Lemma Pdf_load_data_run E (data : bytes) (doc : PdfDoc E) :
  fitz_open E data = inr doc ->
  let c := join (lit " ")
             (map (fun n => clean_string (page_text E doc n))
                  (seq 0 (page_count E doc))) in
  Pdf_load_data E (File data)
  = ([LoadData PdfFileLoader (File data); FitzOpen data],
     match utf8_encode c with
     | Some encoded =>
         inr {| doc_id := hexdigest (sha256 encoded); content := c |}
     | None => inl UnicodeEncodeError
     end).
Proof.
  intros Hopen c. unfold Pdf_load_data, read, emit, ret.
  do 2 (rewrite bind_value; cbn [fst snd]).
  unfold call. rewrite Hopen, bind_value. cbn [fst snd].
  rewrite pdf_pages_map. fold c. unfold sha256_hexdigest.
  destruct (utf8_encode c); reflexivity.
Qed.

(** When every page holds some visible text, the content is the Normalizer
    applied to the raw page texts joined with single spaces. *)
Lemma Pdf_content_without_blank_page E (data : bytes) (doc : PdfDoc E) log d :
  fitz_open E data = inr doc ->
  Pdf_load_data E (File data) = (log, inr d) ->
  Forall (fun p => all_space p = false)
         (map (page_text E doc) (seq 0 (page_count E doc))) ->
  content d
  = clean_string (join (lit " ") (map (page_text E doc) (seq 0 (page_count E doc)))).
Proof.
  intros Hopen Hrun Hpages.
  rewrite (Pdf_load_data_run E data doc Hopen) in Hrun.
  cbv zeta in Hrun.
  destruct (utf8_encode _); [|discriminate Hrun].
  injection Hrun as _ <-. cbn [content].
  change (lit " ") with [SP]. rewrite (clean_string_join _ Hpages), map_map.
  reflexivity.
Qed.

(** C1. The claim asks for the normalized concatenation of the page texts
    and its fingerprint.  On a document with a page without text the code
    departs from it: for the pages "a\n", an empty one and "b\n" it returns
    the content "a  b", with two spaces, which the Normalizer itself would
    change, and the fingerprint of that string; the normalized concatenation
    is "a b", with another fingerprint. *)
Theorem Pdf_load_data_blank_page :
  Pdf_load_data (printed blank_middle) (File [x25])
  = ([LoadData PdfFileLoader (File [x25]); FitzOpen [x25]],
     inr {| doc_id :=
              lit "6e12db73209a66d147a67a15868bdb4b8ae57b884d4731310b62f82a7d67611e";
            content := lit "a  b" |})
  /\ clean_string (concatenated_pages (printed blank_middle) blank_middle)
     = lit "a b"
  /\ sha256_hexdigest (lit "a b")
     = ret (lit "c8687a08aa5d6ed2044328fa6a697ab8e96dc34291e8c2034ae8c38e6fcc6d65")
  /\ clean_string (lit "a  b") = lit "a b"
  /\ ~ normalizes_concatenation (printed blank_middle) [x25].
Proof.
  assert (Hrun : Pdf_load_data (printed blank_middle) (File [x25])
                 = ([LoadData PdfFileLoader (File [x25]); FitzOpen [x25]],
                    inr {| doc_id :=
                             lit "6e12db73209a66d147a67a15868bdb4b8ae57b884d4731310b62f82a7d67611e";
                           content := lit "a  b" |}))
    by (vm_compute; reflexivity).
  split; [exact Hrun|].
  split; [reflexivity|].
  split; [vm_compute; reflexivity|].
  split; [reflexivity|].
  intros H. destruct (H blank_middle _ _ eq_refl Hrun) as [Hc _].
  vm_compute in Hc. discriminate Hc.
Qed.

Lemma load_data_fingerprints E l source log d :
  load_data E l source = (log, inr d) ->
  exists data, utf8_encode (content d) = Some data
               /\ doc_id d = hexdigest (sha256 data).
Proof.
  intros H.
  assert (exists c log', (doc_id <- sha256_hexdigest c ;;
                          ret {| doc_id := doc_id; content := c |}) = (log', inr d))
    as (c & log' & Hc).
  { destruct l; cbn [load_data] in H;
      unfold Pdf_load_data, Text_load_data, Url_load_data in H;
      apply bind_returns in H as (? & ? & ? & _ & H & _);
      apply bind_returns in H as (? & ? & ? & _ & H & _);
      [apply bind_returns in H as (? & ? & ? & _ & H & _)
      |apply bind_returns in H as (? & ? & ? & _ & H & _)|]; eauto. }
  apply fingerprinted_record in Hc as (<- & Hd). exact Hd.
Qed.

(** C4. Whichever loader returns a record, its doc_id is the hexadecimal
    SHA-256 digest of the UTF-8 encoding of its content; two records with
    the same content carry the same doc_id. *)
Theorem doc_id_is_sha256_of_content :
  (forall E l source log d,
      load_data E l source = (log, inr d) ->
      exists data, utf8_encode (content d) = Some data
                   /\ doc_id d = hexdigest (sha256 data))
  /\ (forall E1 E2 l1 l2 source1 source2 log1 log2 d1 d2,
         load_data E1 l1 source1 = (log1, inr d1) ->
         load_data E2 l2 source2 = (log2, inr d2) ->
         content d1 = content d2 -> doc_id d1 = doc_id d2).
Proof.
  split.
  - apply load_data_fingerprints.
  - intros E1 E2 l1 l2 s1 s2 log1 log2 d1 d2 H1 H2 Hc.
    apply load_data_fingerprints in H1 as (b1 & He1 & ->).
    apply load_data_fingerprints in H2 as (b2 & He2 & ->).
    rewrite Hc, He2 in He1. injection He1 as ->. reflexivity.
Qed.

Lemma doc_id_of_paris :
  exists data,
    utf8_encode (lit "Paris is the capital of France.") = Some data
    /\ lit "557be7eca214f1889cdb6dfa348eb7c937648c9d6be72bfc1b8204adf7552a43"
       = hexdigest (sha256 data).
Proof.
  exact (proj1 doc_id_is_sha256_of_content world TextFileLoader (File paris)
           [LoadData TextFileLoader (File paris)]
           {| doc_id := lit "557be7eca214f1889cdb6dfa348eb7c937648c9d6be72bfc1b8204adf7552a43";
              content := lit "Paris is the capital of France." |}
           ltac:(vm_compute; reflexivity)).
Defined.

Lemma str_eqb_refl a : str_eqb a a = true.
Proof. unfold str_eqb. destruct (list_eq_dec Z.eq_dec a a); congruence. Qed.

Lemma str_eqb_neq a b : a <> b -> str_eqb a b = false.
Proof. unfold str_eqb. destruct (list_eq_dec Z.eq_dec a b); congruence. Qed.

Lemma str_eqb_eq a b : str_eqb a b = true -> a = b.
Proof. unfold str_eqb. destruct (list_eq_dec Z.eq_dec a b); congruence. Qed.

(** The step of a run that fails is one of its library calls, reads,
    decodings or encodings; [leaf] looks at that step. *)
Ltac leaf H :=
  unfold read, call, emit, ret, raise, sha256_hexdigest in H;
  repeat match type of H with
         | context [match ?x with _ => _ end] => destruct x
         end;
  discriminate H.

Ltac step H :=
  apply bind_raises in H as [H | (? & ? & ? & _ & H & _)]; [leaf H|].

Lemma load_data_no_ValueError E l source log msg :
  load_data E l source <> (log, inl (ValueError msg)).
Proof.
  intros H.
  destruct l; cbn [load_data] in H;
    unfold Pdf_load_data, Text_load_data, Url_load_data in H;
    repeat step H; leaf H.
Qed.

Lemma generate_mcq_call E topic num lo dl pt kw :
  generate_mcq E topic num lo dl pt kw
  = let t := match pt with None => default_template | Some t => t end in
    call (GenerateMcq topic num dl t) (qna_generate_mcq E topic num dl t).
Proof.
  unfold generate_mcq, call. cbv zeta.
  destruct (qna_generate_mcq E topic num dl _); reflexivity.
Qed.

(** C5. A source_type other than 'pdf', 'text' and 'url' makes
    generate_mcqs_from_data raise the configuration error before anything is
    loaded or generated; with one of the three it never raises it. *)
Theorem unsupported_source_type_raises E source st num lo dl pt kw :
  (st <> lit "pdf" -> st <> lit "text" -> st <> lit "url" ->
   generate_mcqs_from_data E source st num lo dl pt kw
   = ([], inl (ValueError unsupported)))
  /\ (st = lit "pdf" \/ st = lit "text" \/ st = lit "url" ->
      forall msg,
        snd (generate_mcqs_from_data E source st num lo dl pt kw)
        <> inl (ValueError msg)).
Proof.
  split.
  - intros H1 H2 H3. unfold generate_mcqs_from_data.
    rewrite !str_eqb_neq by assumption. reflexivity.
  - intros Hst msg H.
    destruct (generate_mcqs_from_data E source st num lo dl pt kw)
      as [log r] eqn:Hrun.
    simpl in H. subst r. unfold generate_mcqs_from_data in Hrun.
    apply bind_raises in Hrun as [Hsel | (? & l & ? & _ & Hrun & _)].
    + destruct Hst as [-> | [-> | ->]]; vm_compute in Hsel; discriminate Hsel.
    + apply bind_raises in Hrun as [Hload | (? & d & ? & _ & Hrun & _)].
      * exact (load_data_no_ValueError _ _ _ _ _ Hload).
      * destruct (existsb (String.eqb "topic") kw); [discriminate Hrun|].
        rewrite generate_mcq_call in Hrun. leaf Hrun.
Qed.

Lemma docx_is_unsupported :
  generate_mcqs_from_data world (File paris) (lit "docx") 1 (Str [])
    (lit "Easy") None []
  = ([], inl (ValueError unsupported))
  /\ forall msg,
       snd (generate_mcqs_from_data world (File paris) (lit "text") 1 (Str [])
              (lit "Easy") None [])
       <> inl (ValueError msg).
Proof.
  split.
  - apply (proj1 (unsupported_source_type_raises world (File paris) (lit "docx")
                    1 (Str []) (lit "Easy") None []));
      intros H; vm_compute in H; discriminate H.
  - apply (proj2 (unsupported_source_type_raises world (File paris) (lit "text")
                    1 (Str []) (lit "Easy") None [])).
    right. left. reflexivity.
Defined.

(** The three lines of [clean_string] compute the normalizer of the
    specification. *)
Lemma clean_string_spec s : clean_string s = normalize_spec s.
Proof.
  rewrite clean_string_trim. unfold normalize_spec, trim.
  rewrite <- (proj1 (re_sub_collapse_runs _)).
  rewrite <- (proj1 (drop_trailing_re_sub _)), lstrip_re_sub_ws.
  reflexivity.
Qed.

(** C6. The text loader decodes its bytes as UTF-8, normalizes the decoded
    text (leading and trailing whitespace removed, every whitespace run
    that is left made one space) and fingerprints the normalized text; on
    bytes that are not valid UTF-8 it raises the decoding error and returns
    no record. *)
Theorem Text_load_data_decodes_utf8 (data : bytes) :
  (~ valid_utf8 data ->
   Text_load_data (File data)
   = ([LoadData TextFileLoader (File data)], inl UnicodeDecodeError))
  /\ (forall text,
         utf8_encode text = Some data ->
         exists encoded,
           utf8_encode (normalize_spec text) = Some encoded
           /\ Text_load_data (File data)
              = ([LoadData TextFileLoader (File data)],
                 inr {| doc_id := hexdigest (sha256 encoded);
                        content := normalize_spec text |})
           /\ normal (normalize_spec text) = true).
Proof.
  split.
  - intros H. apply utf8_decode_invalid in H.
    unfold Text_load_data, read, emit, ret.
    do 2 (rewrite bind_value; cbn [fst snd]).
    rewrite H. reflexivity.
  - intros text H. rewrite <- clean_string_spec.
    assert (Hs : Forall scalar (clean_string text)).
    { apply Forall_clean_string.
      - unfold scalar, SP. split; [lia | reflexivity].
      - apply utf8_encode_scalar. eauto. }
    apply utf8_encode_scalar in Hs as [encoded Henc].
    exists encoded. split; [exact Henc|].
    split; [|apply normal_clean_string].
    apply decode_encode in H.
    unfold Text_load_data, read, emit, ret.
    do 2 (rewrite bind_value; cbn [fst snd]).
    rewrite H, bind_value. cbn [fst snd].
    unfold sha256_hexdigest. rewrite Henc. reflexivity.
Qed.

Lemma Text_load_data_on_ff_and_paris :
  Text_load_data (File [xff])
  = ([LoadData TextFileLoader (File [xff])], inl UnicodeDecodeError)
  /\ Text_load_data (File (ascii_bytes "Paris  is the capital of France. "))
     = ([LoadData TextFileLoader
           (File (ascii_bytes "Paris  is the capital of France. "))],
        inr {| doc_id :=
                 lit "557be7eca214f1889cdb6dfa348eb7c937648c9d6be72bfc1b8204adf7552a43";
               content := lit "Paris is the capital of France." |}).
Proof.
  split.
  - apply (proj1 (Text_load_data_decodes_utf8 [xff])).
    apply utf8_decode_invalid. reflexivity.
  - destruct (proj2 (Text_load_data_decodes_utf8
                       (ascii_bytes "Paris  is the capital of France. "))
                (lit "Paris  is the capital of France. ") eq_refl)
      as (encoded & Henc & Hrun & _).
    rewrite Hrun. vm_compute in Henc. injection Henc as <-.
    vm_compute. reflexivity.
Defined.

(** C7. The adapter is a pass-through.  generate_mcq makes one engine call
    and its outcome is that call's outcome; whatever generate_mcqs_from_data
    returns is the very object the engine produced for the loaded content,
    and once the content is loaded the engine's outcome is the function's. *)
Theorem engine_result_passed_through E :
  (forall topic num lo dl pt kw,
      generate_mcq E topic num lo dl pt kw
      = let t := match pt with None => default_template | Some t => t end in
        ([GenerateMcq topic num dl t],
         match qna_generate_mcq E topic num dl t with
         | inl what => inl (LibraryError what)
         | inr result => inr result
         end))
  /\ (forall source st num lo dl pt kw log result,
         generate_mcqs_from_data E source st num lo dl pt kw = (log, inr result) ->
         let t := match pt with None => default_template | Some t => t end in
         exists l d before,
           st = type_name l
           /\ load_data E l source = (before, inr d)
           /\ log = before ++ [GenerateMcq (content d) num dl t]
           /\ generation_calls before = []
           /\ qna_generate_mcq E (content d) num dl t = inr result)
  /\ (forall l source num lo dl pt kw before d,
         load_data E l source = (before, inr d) ->
         existsb (String.eqb "topic") kw = false ->
         let t := match pt with None => default_template | Some t => t end in
         generate_mcqs_from_data E source (type_name l) num lo dl pt kw
         = (before ++ [GenerateMcq (content d) num dl t],
            match qna_generate_mcq E (content d) num dl t with
            | inl what => inl (LibraryError what)
            | inr result => inr result
            end)).
Proof.
  split; [|split].
  - intros. apply generate_mcq_call.
  - intros source st num lo dl pt kw log result H t.
    unfold generate_mcqs_from_data in H.
    apply bind_returns in H as (l0 & l & l1 & Hsel & H & ->).
    apply bind_returns in H as (before & d & l2 & Hload & H & ->).
    destruct (existsb (String.eqb "topic") kw); [discriminate H|].
    rewrite generate_mcq_call in H. cbv zeta in H. fold t in H. unfold call in H.
    destruct (qna_generate_mcq E (content d) num dl t) as [what|r] eqn:Hq;
      [discriminate H|].
    injection H as <- <-.
    assert (Hl : l0 = [] /\ st = type_name l).
    { destruct (str_eqb st (lit "pdf")) eqn:H1;
        [|destruct (str_eqb st (lit "text")) eqn:H2;
          [|destruct (str_eqb st (lit "url")) eqn:H3; [|discriminate Hsel]]];
        injection Hsel as <- <-; split; try reflexivity;
        apply str_eqb_eq; assumption. }
    destruct Hl as [-> ->].
    exists l, d, before. repeat split; try assumption.
    destruct l; cbn [load_data] in Hload;
      unfold Pdf_load_data, Text_load_data, Url_load_data in Hload;
      repeat (apply bind_returns in Hload as (? & ? & ? & Hm & Hload & ->);
              unfold read, call, emit, ret, raise, sha256_hexdigest in Hm;
              repeat match type of Hm with
                     | context [match ?x with _ => _ end] => destruct x
                     end; try discriminate Hm;
              injection Hm as <- _);
      injection Hload as <- _; reflexivity.
  - intros l source num lo dl pt kw before d Hload Hkw t.
    unfold generate_mcqs_from_data.
    assert (Hsel : (if str_eqb (type_name l) (lit "pdf") then ret PdfFileLoader
                    else if str_eqb (type_name l) (lit "text") then ret TextFileLoader
                    else if str_eqb (type_name l) (lit "url") then ret UrlLoader
                    else raise (ValueError unsupported)) = ret l)
      by (destruct l; reflexivity).
    rewrite Hsel. unfold ret at 1. rewrite bind_value. cbn [fst snd app].
    rewrite Hload, bind_value, Hkw, generate_mcq_call. reflexivity.
Qed.

Lemma paris_question_passed_through :
  generate_mcqs_from_data world (File paris) (type_name TextFileLoader) 1
    (Str []) (lit "Easy") None []
  = ([LoadData TextFileLoader (File paris)]
       ++ [GenerateMcq (lit "Paris is the capital of France.") 1 (lit "Easy")
             default_template],
     match qna_generate_mcq world (lit "Paris is the capital of France.") 1
             (lit "Easy") default_template with
     | inl what => inl (LibraryError what)
     | inr result => inr result
     end).
Proof.
  exact (proj2 (proj2 (engine_result_passed_through world))
           TextFileLoader (File paris) 1 (Str []) (lit "Easy") None []
           [LoadData TextFileLoader (File paris)]
           {| doc_id := lit "557be7eca214f1889cdb6dfa348eb7c937648c9d6be72bfc1b8204adf7552a43";
              content := lit "Paris is the capital of France." |}
           ltac:(vm_compute; reflexivity) eq_refl).
Defined.

Lemma embeds_at n text needle :
  firstn (length needle) (skipn n text) = needle -> embeds text needle.
Proof.
  intros H. exists (firstn n text), (skipn (length needle) (skipn n text)).
  rewrite <- H at 1. rewrite !firstn_skipn. reflexivity.
Qed.

(** C8. Without a prompt template, generate_mcq calls the engine with the
    default template, which embeds the placeholders for the count, the topic
    and the difficulty level; a template the caller supplies is passed on
    unchanged. *)
Theorem default_template_when_none E topic num lo dl kw :
  generate_mcq E topic num lo dl None kw
  = call (GenerateMcq topic num dl default_template)
         (qna_generate_mcq E topic num dl default_template)
  /\ (forall t,
         generate_mcq E topic num lo dl (Some t) kw
         = call (GenerateMcq topic num dl t) (qna_generate_mcq E topic num dl t))
  /\ embeds default_template (lit "{num}")
  /\ embeds default_template (lit "{topic}")
  /\ embeds default_template (lit "{difficulty_level}").
Proof.
  split; [apply generate_mcq_call|].
  split; [intros t; apply generate_mcq_call|].
  split; [|split].
  - apply (embeds_at 18). reflexivity.
  - apply (embeds_at 182). reflexivity.
  - apply (embeds_at 217). reflexivity.
Qed.

Lemma alphabet_nth j :
  (j < 26)%nat -> nth_error alphabet j = Some (97 + Z.of_nat j).
Proof.
  intros H. do 26 (destruct j as [|j]; [reflexivity|]). lia.
Qed.

Lemma chr_letter j :
  (j < 26)%nat -> chr (96 + (Z.of_nat j + 1)) = ret [97 + Z.of_nat j].
Proof.
  intros H. unfold chr.
  replace (96 + (Z.of_nat j + 1)) with (97 + Z.of_nat j) by lia.
  rewrite (proj2 (Z.leb_le 0 _)), (proj2 (Z.leb_le _ 1114111)) by lia.
  reflexivity.
Qed.

(** The inner loop writes the lettered lines after what is already there. *)
Lemma format_options_lettered opts : forall j out,
  (j + length opts <= 26)%nat ->
  exists ls, option_lines j opts = Some ls
             /\ format_options (Z.of_nat j + 1) opts out = ret (out ++ ls).
Proof.
  induction opts as [|opt rest IH]; intros j out Hlen.
  - exists []. rewrite app_nil_r. split; reflexivity.
  - cbn [length] in Hlen. cbn [option_lines format_options].
    rewrite alphabet_nth, chr_letter by lia.
    destruct (IH (S j)
                (out ++ lit "   " ++ [97 + Z.of_nat j] ++ lit ") " ++ opt ++ NL))
      as (ls & Hls & Hrun); [lia|].
    rewrite Hls. eexists. split; [reflexivity|].
    rewrite bind_ret.
    replace (Z.of_nat j + 1 + 1) with (Z.of_nat (S j) + 1) by lia.
    etransitivity; [exact Hrun|]. f_equal.
    rewrite <- !app_assoc. reflexivity.
Qed.

Lemma format_loop_lettered qs : forall i out,
  Forall (fun q => (length (options q) <= 26)%nat) qs ->
  exists bs, blocks_from i qs = Some bs
             /\ format_loop (Z.of_nat i) qs out = ret (out ++ bs).
Proof.
  induction qs as [|q rest IH]; intros i out Hqs.
  - exists []. rewrite app_nil_r. split; reflexivity.
  - inversion Hqs as [|? ? Hq Hrest]; subst.
    cbn [blocks_from format_loop]. unfold question_block.
    destruct (format_options_lettered (options q) 0
                (out ++ str_of_int (Z.of_nat i) ++ lit ". " ++ question q ++ NL))
      as (ls & Hls & Hrun); [simpl; lia|].
    rewrite Hls. change (Z.of_nat 0 + 1) with 1 in Hrun.
    destruct (IH (S i)
                ((out ++ str_of_int (Z.of_nat i) ++ lit ". " ++ question q ++ NL)
                 ++ ls ++ lit "   Answer: " ++ correct_answer q ++ NL ++ NL) Hrest)
      as (bs & Hbs & Hloop).
    rewrite Hbs. eexists. split; [reflexivity|].
    etransitivity; [apply (f_equal (fun m => bind m _) Hrun)|].
    rewrite bind_ret.
    replace (Z.of_nat i + 1) with (Z.of_nat (S i)) by lia.
    etransitivity; [|etransitivity; [exact Hloop|]].
    + f_equal. rewrite <- !app_assoc. reflexivity.
    + f_equal. rewrite <- !app_assoc. reflexivity.
Qed.

(** C9, restricted to questions with at most 26 options.  Each question is
    rendered as its numbered line (counting from 1), one line per option
    lettered a), b), c), ... in option order, the line labelled Answer: with
    the correct answer, and a blank line. *)
Theorem format_mcqs_lettered qs :
  Forall (fun q => (length (options q) <= 26)%nat) qs ->
  formats_as_lettered qs.
Proof.
  intros H. destruct (format_loop_lettered qs 1 [] H) as (bs & Hbs & Hrun).
  exists bs. split; [exact Hrun | exact Hbs].
Qed.

Lemma capital_question_lettered : formats_as_lettered [capital_question].
Proof.
  apply (format_mcqs_lettered [capital_question]).
  repeat constructor.
Defined.

(** C9 as stated, for every list of questions, fails: the twenty-seventh
    option of a question gets the label "{)", which is no letter. *)
Lemma many_options_not_lettered :
  ~ formats_as_lettered [many_options]
  /\ exists before after,
       format_mcqs [many_options]
       = ret (before ++ lit "   z) x" ++ NL ++ lit "   {) x" ++ NL ++ after).
Proof.
  split.
  - intros (out & _ & H). vm_compute in H. discriminate H.
  - exists (firstn 205 (match snd (format_mcqs [many_options]) with
                        | inr out => out
                        | inl _ => []
                        end)),
           (lit "   Answer: x" ++ NL ++ NL).
    vm_compute. reflexivity.
Qed.

(** C10. With the source type 'url', one run of the form never renders any
    question text; once an address is typed and the button pressed, it stops
    with the name error for learning_objective, before any loading and any
    generation call. *)
Theorem url_branch_raises_NameError E ui :
  source_type ui = lit "url" ->
  existsb renders_text (fst (main E ui)) = false
  /\ (truthy (url ui) = true -> button ui = true ->
      snd (main E ui) = inl (NameError "learning_objective")
      /\ existsb loads_or_generates (fst (main E ui)) = false).
Proof.
  intros Hst. unfold main. rewrite Hst.
  destruct (api_key ui) as [k|]; [destruct (truthy k)|];
    destruct (truthy (url ui)), (button ui);
    (split; [reflexivity | intros H1 H2; try discriminate; split; reflexivity]).
Qed.

Lemma url_session_raises_NameError :
  existsb renders_text (fst (main world url_session)) = false
  /\ snd (main world url_session) = inl (NameError "learning_objective")
  /\ existsb loads_or_generates (fst (main world url_session)) = false.
Proof.
  split.
  - exact (proj1 (url_branch_raises_NameError world url_session eq_refl)).
  - exact (proj2 (url_branch_raises_NameError world url_session eq_refl)
             eq_refl eq_refl).
Defined.

End AppFacts.

(** ** The library models on known values *)

Module Vectors.
Import Text Utf8 Sha256 Demo.

Example sha256_round_constants :
  firstn 2 K = [0x428a2f98; 0x71374491] /\ nth 63 K 0 = 0xc67178f2
  /\ firstn 2 H0 = [0x6a09e667; 0xbb67ae85] /\ nth 7 H0 0 = 0x5be0cd19.
Proof. vm_compute. repeat split. Qed.

Example sha256_of_empty :
  hexdigest (sha256 [])
  = lit "e3b0c44298fc1c149afbf4c8996fb92427ae41e4649b934ca495991b7852b855".
Proof. vm_compute. reflexivity. Qed.

Example sha256_of_abc :
  hexdigest (sha256 (ascii_bytes "abc"))
  = lit "ba7816bf8f01cfea414140de5dae2223b00361a396177a9cb410ff61f20015ad".
Proof. vm_compute. reflexivity. Qed.

Example sha256_of_two_blocks :
  hexdigest (sha256 (ascii_bytes
    "abcdbcdecdefdefgefghfghighijhijkijkljklmklmnlmnomnopnopq"))
  = lit "248d6a61d20638b8e5c026930c3e6039a33ce45964ff2167f6ecedd419db06c1".
Proof. vm_compute. reflexivity. Qed.

Example utf8_euro_sign :
  utf8_encode [8364] = Some [xe2; x82; xac]
  /\ utf8_decode [xe2; x82; xac] = Some [8364].
Proof. split; reflexivity. Qed.

Example utf8_refused :
  utf8_decode [xc0; x80] = None          (* overlong *)
  /\ utf8_decode [xed; xa0; x80] = None  (* surrogate *)
  /\ utf8_decode [xf4; x90; x80; x80] = None  (* above U+10FFFF *)
  /\ utf8_decode [xe2; x82] = None       (* truncated *)
  /\ utf8_decode [x80] = None            (* stray continuation byte *)
  /\ utf8_encode [55296] = None.
Proof. repeat split; reflexivity. Qed.

Example isspace_examples :
  map isspace [9; 10; 32; 160; 12288; 8203; 97]
  = [true; true; true; true; true; false; false].
Proof. reflexivity. Qed.

Example join_examples :
  join (lit " ") [] = [] /\ join (lit " ") [lit "a"] = lit "a"
  /\ join (lit " ") [lit "a"; []; lit "b"] = lit "a  b".
Proof. repeat split; reflexivity. Qed.

End Vectors.

(** ** More on the normalizer *)

Module TextMore.
Import Text TextFacts More.

Lemma all_space_nonempty_end r :
  r <> [] -> ends_space r = false -> all_space r = false.
Proof.
  intros Hne He. rewrite <- all_space_rev. unfold ends_space in He.
  destruct (rev r) as [|d t] eqn:Hrev.
  - apply (f_equal (@rev _)) in Hrev. rewrite rev_involutive in Hrev.
    contradiction.
  - simpl in He. rewrite all_space_cons, He. reflexivity.
Qed.

Lemma ends_space_cons c d r : ends_space (c :: d :: r) = ends_space (d :: r).
Proof.
  unfold ends_space. cbn [rev].
  destruct (rev r ++ [d]) as [|e t] eqn:H; [|reflexivity].
  apply app_eq_nil in H as [_ H]. discriminate H.
Qed.

Lemma drop_trailing_fixed s : ends_space s = false -> drop_trailing_space s = s.
Proof.
  induction s as [|c r IH]; [reflexivity|].
  intros He. destruct r as [|d r].
  - unfold ends_space in He. simpl in He.
    rewrite drop_trailing_cons by (rewrite all_space_cons, He; reflexivity).
    reflexivity.
  - rewrite ends_space_cons in He.
    rewrite drop_trailing_cons, (IH He); [reflexivity|].
    rewrite all_space_cons, (all_space_nonempty_end (d :: r)), andb_false_r;
      [reflexivity | discriminate | exact He].
Qed.

Lemma clean_string_fixed s : normal s = true -> clean_string s = s.
Proof.
  unfold normal. intros H.
  apply andb_prop in H as [H He]. apply andb_prop in H as [Hc Hs].
  apply negb_true_iff in He, Hs.
  rewrite clean_string_trim, (re_sub_collapsed _ Hc). unfold trim.
  rewrite (lstrip_fixed _ Hs). apply drop_trailing_fixed, He.
Qed.

(** X1. The output of the Normalizer is in normal form (no whitespace at
    either end, every whitespace character a single space between two
    others), and the texts it leaves unchanged are exactly those in normal
    form. *)
Theorem clean_string_fixed_points s :
  normal (clean_string s) = true
  /\ (clean_string s = s <-> normal s = true).
Proof.
  split; [apply normal_clean_string|].
  split.
  - intros H. rewrite <- H. apply normal_clean_string.
  - apply clean_string_fixed.
Qed.

Lemma visible_all_space s : all_space s = true -> visible s = [].
Proof.
  induction s as [|c r IH]; [reflexivity|].
  rewrite all_space_cons. intros H. apply andb_prop in H as [Hc Hr].
  unfold visible in *. cbn [filter]. rewrite Hc. exact (IH Hr).
Qed.

Lemma visible_nil_all_space s : visible s = [] -> all_space s = true.
Proof.
  induction s as [|c r IH]; [reflexivity|].
  unfold visible in *. cbn [filter]. rewrite all_space_cons.
  destruct (isspace c); cbn [negb andb]; [exact IH | discriminate].
Qed.

Lemma visible_re_sub s :
  visible (re_sub_ws s) = visible s /\ visible (re_sub_in s) = visible s.
Proof.
  unfold visible.
  induction s as [|c r [IH1 IH2]]; [split; reflexivity|].
  cbn [re_sub_ws re_sub_in filter].
  destruct (isspace c) eqn:Hc; cbn [filter negb]; rewrite ?isspace_SP, ?Hc;
    cbn [negb]; rewrite ?IH1, ?IH2; split; reflexivity.
Qed.

Lemma visible_lstrip s : visible (lstrip s) = visible s.
Proof.
  unfold visible. induction s as [|c r IH]; [reflexivity|].
  cbn [lstrip filter]. destruct (isspace c) eqn:Hc; cbn [negb]; [exact IH|].
  cbn [filter]. rewrite Hc. reflexivity.
Qed.

Lemma visible_drop_trailing s : visible (drop_trailing_space s) = visible s.
Proof.
  induction s as [|c r IH]; [reflexivity|].
  destruct (all_space (c :: r)) eqn:Hall.
  - rewrite (drop_trailing_all_space _ Hall), (visible_all_space _ Hall).
    reflexivity.
  - rewrite (drop_trailing_cons _ _ Hall). unfold visible in *.
    cbn [filter]. rewrite IH. reflexivity.
Qed.

Lemma visible_clean_string s : visible (clean_string s) = visible s.
Proof.
  rewrite clean_string_trim. unfold trim.
  rewrite visible_drop_trailing, visible_lstrip.
  apply visible_re_sub.
Qed.

(** X2. The Normalizer neither drops, adds nor reorders a character that is
    not whitespace. *)
Theorem clean_string_keeps_visible s : visible (clean_string s) = visible s.
Proof. apply visible_clean_string. Qed.

(** X3. The Normalizer returns the empty string exactly on the texts made
    of whitespace only (the empty text among them). *)
Theorem clean_string_empty_iff_blank s :
  clean_string s = [] <-> all_space s = true.
Proof.
  split.
  - intros H. apply visible_nil_all_space.
    rewrite <- visible_clean_string, H. reflexivity.
  - intros H. rewrite clean_string_trim. unfold trim.
    rewrite lstrip_all_space; [reflexivity|].
    rewrite (proj1 (all_space_re_sub s)). exact H.
Qed.

Lemma length_re_sub s :
  (length (re_sub_ws s) <= length s)%nat /\ (length (re_sub_in s) <= length s)%nat.
Proof.
  induction s as [|c r [IH1 IH2]]; [split; reflexivity|].
  cbn [re_sub_ws re_sub_in]. destruct (isspace c); cbn [length]; lia.
Qed.

Lemma length_lstrip s : (length (lstrip s) <= length s)%nat.
Proof.
  induction s as [|c r IH]; [reflexivity|].
  cbn [lstrip]. destruct (isspace c); cbn [length]; lia.
Qed.

Lemma length_drop_trailing s : (length (drop_trailing_space s) <= length s)%nat.
Proof.
  induction s as [|c r IH]; [reflexivity|].
  cbn [drop_trailing_space]. destruct (all_space (c :: r)); cbn [length]; lia.
Qed.

(** X4. The Normalizer never makes a text longer. *)
Theorem clean_string_not_longer s :
  (length (clean_string s) <= length s)%nat.
Proof.
  rewrite clean_string_trim. unfold trim.
  pose proof (length_drop_trailing (lstrip (re_sub_ws s))).
  pose proof (length_lstrip (re_sub_ws s)).
  pose proof (proj1 (length_re_sub s)). lia.
Qed.

Lemma clean_string_of_trim s : clean_string s = re_sub_ws (trim s).
Proof.
  rewrite clean_string_trim. unfold trim.
  rewrite <- (proj1 (drop_trailing_re_sub _)), lstrip_re_sub_ws. reflexivity.
Qed.

Lemma lstrip_skips a s : all_space a = true -> lstrip (a ++ s) = lstrip s.
Proof.
  induction a as [|c r IH]; [reflexivity|].
  rewrite all_space_cons. intros H. apply andb_prop in H as [Hc Hr].
  cbn [app lstrip]. rewrite Hc. exact (IH Hr).
Qed.

Lemma drop_trailing_skips s b :
  all_space b = true -> drop_trailing_space (s ++ b) = drop_trailing_space s.
Proof.
  intros Hb. induction s as [|c r IH].
  - apply drop_trailing_all_space. exact Hb.
  - cbn [app drop_trailing_space].
    rewrite !all_space_cons, all_space_app, Hb, andb_true_r, IH. reflexivity.
Qed.

Lemma trim_padding a s b :
  all_space a = true -> all_space b = true -> trim (a ++ s ++ b) = trim s.
Proof.
  intros Ha Hb. unfold trim. rewrite (lstrip_skips _ _ Ha).
  destruct (all_space s) eqn:Hs.
  - rewrite (lstrip_skips _ _ Hs), (lstrip_all_space _ Hb),
      (lstrip_all_space _ Hs). reflexivity.
  - rewrite (lstrip_app _ _ Hs). apply drop_trailing_skips, Hb.
Qed.

(** X5. Whitespace before and after a text does not change what the
    Normalizer returns. *)
Theorem clean_string_ignores_padding a s b :
  all_space a = true -> all_space b = true ->
  clean_string (a ++ s ++ b) = clean_string s.
Proof.
  intros Ha Hb. rewrite !clean_string_of_trim, (trim_padding _ _ _ Ha Hb).
  reflexivity.
Qed.

Lemma padded_word_cleaned :
  clean_string ([10; 9] ++ lit "a  b" ++ [32; 160]) = clean_string (lit "a  b").
Proof.
  apply (clean_string_ignores_padding [10; 9] (lit "a  b") [32; 160]);
    reflexivity.
Defined.

End TextMore.

(** ** More on the loaders and the adapter *)

Module AppMore.
Import Text Utf8 Sha256 App Demo More TextFacts Utf8Facts AppFacts TextMore.

(** What a loader returns without a page loop is a cleaned text. *)
Lemma flat_content_cleaned E l source log d :
  l <> PdfFileLoader ->
  load_data E l source = (log, inr d) ->
  exists t, content d = clean_string t.
Proof.
  intros Hl H. destruct l; [contradiction | |]; cbn [load_data] in H;
    unfold Text_load_data, Url_load_data in H;
    repeat (apply bind_returns in H as (? & ? & ? & _ & H & _));
    injection H as _ <-; cbn [content]; eexists; reflexivity.
Qed.

(** X6. Whatever the text loader or the URL loader returns, its content is
    in normal form, so that normalizing it again changes nothing. *)
Theorem flat_loaders_return_normal_content E l source log d :
  l <> PdfFileLoader ->
  load_data E l source = (log, inr d) ->
  normal (content d) = true /\ clean_string (content d) = content d.
Proof.
  intros Hl H. destruct (flat_content_cleaned E l source log d Hl H) as [t ->].
  split; [|apply clean_string_fixed]; apply normal_clean_string.
Qed.

Lemma paris_content_normal :
  normal (lit "Paris is the capital of France.") = true
  /\ clean_string (lit "Paris is the capital of France.")
     = lit "Paris is the capital of France.".
Proof.
  apply (flat_loaders_return_normal_content world TextFileLoader (File paris)
           [LoadData TextFileLoader (File paris)]
           {| doc_id := lit "557be7eca214f1889cdb6dfa348eb7c937648c9d6be72bfc1b8204adf7552a43";
              content := lit "Paris is the capital of France." |}).
  - discriminate.
  - vm_compute. reflexivity.
Defined.

(** Joining with an empty part in it leaves a space where none belongs. *)
Lemma collapsed_suffix a b : collapsed (a ++ b) = true -> collapsed b = true.
Proof.
  induction a as [|c r IH]; [trivial|].
  cbn [app collapsed]. intros H. apply andb_prop in H as [_ H]. exact (IH H).
Qed.

Lemma ends_space_app a c t : ends_space (a ++ c :: t) = ends_space (c :: t).
Proof.
  induction a as [|d r IH]; [reflexivity|].
  cbn [app]. destruct (r ++ c :: t) as [|e u] eqn:H.
  - apply app_eq_nil in H as [_ H]. discriminate H.
  - rewrite ends_space_cons. exact IH.
Qed.

Lemma normal_after_space a t :
  normal t = false -> t <> [] -> normal (a ++ SP :: t) = false.
Proof.
  intros Ht Hne. unfold normal in *.
  destruct (collapsed (a ++ SP :: t)) eqn:Hc; [|reflexivity].
  apply collapsed_suffix in Hc. cbn [collapsed] in Hc.
  rewrite isspace_SP in Hc. apply andb_prop in Hc as [Hsp Hct].
  apply andb_prop in Hsp as [_ Hnext].
  destruct t as [|d u]; [contradiction|].
  apply negb_true_iff in Hnext. rewrite Hct in Ht. cbn [starts_space] in Ht.
  rewrite Hnext in Ht. cbn [negb andb] in Ht.
  rewrite (ends_space_app a SP (d :: u)), ends_space_cons, Ht.
  apply andb_false_r.
Qed.

Lemma join_cons2 p q rest :
  join [SP] (p :: q :: rest) = p ++ SP :: join [SP] (q :: rest).
Proof. reflexivity. Qed.

Lemma join_with_empty_part parts :
  (2 <= length parts)%nat -> In [] parts -> normal (join [SP] parts) = false.
Proof.
  induction parts as [|p rest IH]; [simpl; lia|].
  intros Hlen Hin. destruct rest as [|q rest]; [simpl in Hlen; lia|].
  rewrite join_cons2.
  destruct p as [|c p'].
  { unfold normal. cbn [app starts_space]. rewrite isspace_SP.
    cbn [negb]. rewrite andb_false_r. reflexivity. }
  destruct Hin as [Hp | Hin]; [discriminate Hp|].
  destruct rest as [|q' rest].
  - destruct Hin as [-> | []]. cbn [join].
    unfold normal.
    replace (ends_space ((c :: p') ++ [SP])) with true; [apply andb_false_r|].
    rewrite (ends_space_app (c :: p') SP []). reflexivity.
  - apply normal_after_space.
    + apply IH; [simpl; lia | exact Hin].
    + rewrite join_cons2. destruct q; discriminate.
Qed.

Lemma Pdf_returned_content E data doc log d :
  fitz_open E data = inr doc ->
  Pdf_load_data E (File data) = (log, inr d) ->
  content d = join [SP] (map clean_string
                           (map (page_text E doc) (seq 0 (page_count E doc)))).
Proof.
  intros Hopen Hrun. rewrite (Pdf_load_data_run E data doc Hopen) in Hrun.
  cbv zeta in Hrun. destruct (utf8_encode _); [|discriminate Hrun].
  injection Hrun as _ <-. cbn [content]. rewrite map_map. reflexivity.
Qed.

(** X7. The content the PDF loader returns is in normal form when every
    page holds some visible text; when the document has at least two pages
    and any of them holds none, it is not: it then starts or ends with a
    space or has two spaces in a row, and normalizing it would change it. *)
Theorem Pdf_content_normal_without_blank_page E data doc log d :
  fitz_open E data = inr doc ->
  Pdf_load_data E (File data) = (log, inr d) ->
  let pages := map (page_text E doc) (seq 0 (page_count E doc)) in
  (Forall (fun p => all_space p = false) pages -> normal (content d) = true)
  /\ ((2 <= length pages)%nat -> Exists (fun p => all_space p = true) pages ->
      normal (content d) = false /\ clean_string (content d) <> content d).
Proof.
  intros Hopen Hrun pages.
  rewrite (Pdf_returned_content E data doc log d Hopen Hrun). fold pages.
  split.
  - intros Hall. rewrite <- (clean_string_join _ Hall).
    apply normal_clean_string.
  - intros Hlen Hblank.
    assert (Hn : normal (join [SP] (map clean_string pages)) = false).
    { apply join_with_empty_part; [rewrite length_map; exact Hlen|].
      apply Exists_exists in Hblank as (p & Hp & Hsp).
      apply in_map_iff. exists p. split; [|exact Hp].
      rewrite clean_string_trim. unfold trim.
      rewrite lstrip_all_space; [reflexivity|].
      rewrite (proj1 (all_space_re_sub p)). exact Hsp. }
    split; [exact Hn|].
    intros Heq. rewrite <- Heq, normal_clean_string in Hn. discriminate Hn.
Qed.

Lemma blank_second_page_breaks_normal_form :
  normal (lit "a  b") = false /\ clean_string (lit "a  b") <> lit "a  b".
Proof.
  apply (proj2 (Pdf_content_normal_without_blank_page world [x61; x20; x62]
                  [[97]; [32]; [98]]
                  [LoadData PdfFileLoader (File [x61; x20; x62]);
                   FitzOpen [x61; x20; x62]]
                  {| doc_id := hexdigest (sha256 [x61; x20; x20; x62]);
                     content := lit "a  b" |}
                  eq_refl ltac:(vm_compute; reflexivity))).
  - simpl. lia.
  - apply Exists_cons_tl, Exists_cons_hd. reflexivity.
Defined.

(** A loader's own trace holds neither an engine call nor shown text. *)
Lemma load_data_quiet E l source :
  generation_calls (fst (load_data E l source)) = []
  /\ existsb renders_text (fst (load_data E l source)) = false.
Proof.
  destruct l; cbn [load_data];
    unfold Pdf_load_data, Text_load_data, Url_load_data, read, call, emit,
      ret, raise, sha256_hexdigest;
    destruct source; cbn; try (split; reflexivity).
  - destruct (fitz_open E data); cbn; [split; reflexivity|].
    destruct (utf8_encode _); split; reflexivity.
  - destruct (utf8_decode data); cbn; [|split; reflexivity].
    destruct (utf8_encode _); split; reflexivity.
  - destruct (requests_get E (Str s)); cbn; [split; reflexivity|].
    destruct (utf8_encode _); split; reflexivity.
  - destruct (requests_get E (File data)); cbn; [split; reflexivity|].
    destruct (utf8_encode _); split; reflexivity.
  - destruct (requests_get E NoneV); cbn; [split; reflexivity|].
    destruct (utf8_encode _); split; reflexivity.
  - destruct (requests_get E (Global name)); cbn; [split; reflexivity|].
    destruct (utf8_encode _); split; reflexivity.
Qed.

(** With a supported source type the selection is settled: load, then
    either the keyword clash or the engine. *)
Lemma generate_supported E l source num lo dl pt kw :
  generate_mcqs_from_data E source (type_name l) num lo dl pt kw
  = (data <- load_data E l source ;;
     if existsb (String.eqb "topic") kw then raise topic_error
     else generate_mcq E (content data) num lo dl pt kw).
Proof.
  unfold generate_mcqs_from_data.
  assert (Hsel : (if str_eqb (type_name l) (lit "pdf") then ret PdfFileLoader
                  else if str_eqb (type_name l) (lit "text") then ret TextFileLoader
                  else if str_eqb (type_name l) (lit "url") then ret UrlLoader
                  else raise (ValueError unsupported)) = ret l)
    by (destruct l; reflexivity).
  rewrite Hsel, bind_ret. reflexivity.
Qed.

Lemma no_generation_call log topic num dl t :
  generation_calls log = [] -> ~ In (GenerateMcq topic num dl t) log.
Proof.
  intros H Hin.
  assert (Hf : In (GenerateMcq topic num dl t) (generation_calls log))
    by (apply filter_In; split; [exact Hin | reflexivity]).
  rewrite H in Hf. exact Hf.
Qed.

(** X8. When the selected loader fails, generate_mcqs_from_data fails with
    the loader's own error and trace, and the engine is never called. *)
Theorem load_failure_stops_generation E l source num lo dl pt kw log e :
  load_data E l source = (log, inl e) ->
  generate_mcqs_from_data E source (type_name l) num lo dl pt kw = (log, inl e)
  /\ generation_calls log = [].
Proof.
  intros H. rewrite generate_supported, H. split; [reflexivity|].
  pose proof (proj1 (load_data_quiet E l source)) as Hq.
  rewrite H in Hq. exact Hq.
Qed.

Lemma undecodable_upload_stops_generation :
  generate_mcqs_from_data world (File [xff]) (type_name TextFileLoader) 1
    (Str []) (lit "Easy") None []
  = ([LoadData TextFileLoader (File [xff])], inl UnicodeDecodeError)
  /\ generation_calls [LoadData TextFileLoader (File [xff])] = [].
Proof.
  exact (load_failure_stops_generation world TextFileLoader (File [xff]) 1
           (Str []) (lit "Easy") None []
           [LoadData TextFileLoader (File [xff])] UnicodeDecodeError eq_refl).
Defined.

(** X9. An extra keyword argument named topic makes generate_mcqs_from_data
    raise a TypeError in place of the engine call: the source is loaded
    first (a loader's failure comes first), and the engine is never called. *)
Theorem topic_keyword_clashes E l source num lo dl pt kw :
  existsb (String.eqb "topic") kw = true ->
  generate_mcqs_from_data E source (type_name l) num lo dl pt kw
  = (fst (load_data E l source),
     match snd (load_data E l source) with
     | inl e => inl e
     | inr _ => inl topic_error
     end)
  /\ generation_calls
       (fst (generate_mcqs_from_data E source (type_name l) num lo dl pt kw))
     = [].
Proof.
  intros Hkw.
  assert (Hrun : generate_mcqs_from_data E source (type_name l) num lo dl pt kw
                 = (fst (load_data E l source),
                    match snd (load_data E l source) with
                    | inl e => inl e
                    | inr _ => inl topic_error
                    end)).
  { rewrite generate_supported.
    destruct (load_data E l source) as [log [e|d]]; [reflexivity|].
    rewrite bind_value, Hkw. cbn. rewrite app_nil_r. reflexivity. }
  split; [exact Hrun|].
  rewrite Hrun. apply load_data_quiet.
Qed.

Lemma topic_keyword_after_paris :
  generate_mcqs_from_data world (File paris) (type_name TextFileLoader) 1
    (Str []) (lit "Easy") None ["topic"%string]
  = (fst (load_data world TextFileLoader (File paris)),
     match snd (load_data world TextFileLoader (File paris)) with
     | inl e => inl e
     | inr _ => inl topic_error
     end).
Proof.
  exact (proj1 (topic_keyword_clashes world TextFileLoader (File paris) 1
                  (Str []) (lit "Easy") None ["topic"%string] eq_refl)).
Defined.

(** X10. The topic handed to the engine for a text or URL source is in
    normal form, and the count and the difficulty are the caller's. *)
Theorem engine_topic_is_normal E l source num lo dl pt kw topic n dl' t :
  l <> PdfFileLoader ->
  In (GenerateMcq topic n dl' t)
     (fst (generate_mcqs_from_data E source (type_name l) num lo dl pt kw)) ->
  normal topic = true /\ n = num /\ dl' = dl.
Proof.
  intros Hl Hin. rewrite generate_supported in Hin.
  pose proof (proj1 (load_data_quiet E l source)) as Hq.
  destruct (load_data E l source) as [log [e|d]] eqn:Hload; cbn [fst] in Hq.
  - exfalso. exact (no_generation_call _ _ _ _ _ Hq Hin).
  - rewrite bind_value in Hin. cbn [fst] in Hin.
    apply in_app_or in Hin as [Hin | Hin];
      [exfalso; exact (no_generation_call _ _ _ _ _ Hq Hin)|].
    destruct (existsb (String.eqb "topic") kw); [destruct Hin|].
    rewrite generate_mcq_call in Hin. destruct Hin as [Heq | []].
    injection Heq as <- <- <- _.
    destruct (flat_content_cleaned E l source log d Hl Hload) as [u ->].
    split; [apply normal_clean_string | split; reflexivity].
Qed.

Lemma paris_topic_is_normal :
  normal (lit "Paris is the capital of France.") = true /\ 1 = 1
  /\ lit "Easy" = lit "Easy".
Proof.
  apply (engine_topic_is_normal world TextFileLoader (File paris) 1 (Str [])
           (lit "Easy") None [] (lit "Paris is the capital of France.") 1
           (lit "Easy") default_template).
  - discriminate.
  - vm_compute. right. left. reflexivity.
Defined.

(** X11. The learning_objective argument and every extra keyword argument
    other than topic are ignored: they change neither the outcome nor the
    trace of generate_mcqs_from_data. *)
Theorem learning_objective_is_ignored E source st num lo lo' dl pt kw kw' :
  existsb (String.eqb "topic") kw = existsb (String.eqb "topic") kw' ->
  generate_mcqs_from_data E source st num lo dl pt kw
  = generate_mcqs_from_data E source st num lo' dl pt kw'.
Proof.
  intros H. unfold generate_mcqs_from_data, generate_mcq. rewrite H.
  reflexivity.
Qed.

Lemma objective_and_extra_keywords_ignored :
  generate_mcqs_from_data world (File paris) (lit "text") 1 (Str [])
    (lit "Easy") None []
  = generate_mcqs_from_data world (File paris) (lit "text") 1
      (Str (lit "know the capitals")) (lit "Easy") None ["audience"%string].
Proof.
  exact (learning_objective_is_ignored world (File paris) (lit "text") 1
           (Str []) (Str (lit "know the capitals")) (lit "Easy") None
           [] ["audience"%string] eq_refl).
Defined.

(** X12. A PDF that opens as a document without pages loads with empty
    content, and its doc_id is the SHA-256 digest of the empty string. *)
Theorem Pdf_without_pages E data doc :
  fitz_open E data = inr doc ->
  page_count E doc = 0%nat ->
  Pdf_load_data E (File data)
  = ([LoadData PdfFileLoader (File data); FitzOpen data],
     inr {| doc_id :=
              lit "e3b0c44298fc1c149afbf4c8996fb92427ae41e4649b934ca495991b7852b855";
            content := [] |}).
Proof.
  intros Hopen Hcount.
  rewrite (Pdf_load_data_run E data doc Hopen), Hcount.
  vm_compute. reflexivity.
Qed.

Lemma hollow_pdf_loads_empty :
  Pdf_load_data hollow (File [x25])
  = ([LoadData PdfFileLoader (File [x25]); FitzOpen [x25]],
     inr {| doc_id :=
              lit "e3b0c44298fc1c149afbf4c8996fb92427ae41e4649b934ca495991b7852b855";
            content := [] |}).
Proof.
  exact (Pdf_without_pages hollow [x25] [] eq_refl eq_refl).
Defined.

(** X13. Strict UTF-8 decoding and encoding are inverse to each other:
    bytes decode to a text exactly when they are that text's encoding. *)
Theorem utf8_round_trip data text :
  utf8_decode data = Some text <-> utf8_encode text = Some data.
Proof. split; [apply encode_decode | apply decode_encode]. Qed.

(** X14. A text file whose text is already in normal form is returned as
    it is, and its doc_id is the SHA-256 digest of the file's own bytes. *)
Theorem normal_text_file_hashes_as_is data text :
  utf8_encode text = Some data ->
  normal text = true ->
  Text_load_data (File data)
  = ([LoadData TextFileLoader (File data)],
     inr {| doc_id := hexdigest (sha256 data); content := text |}).
Proof.
  intros Henc Hn. unfold Text_load_data, read, emit, ret.
  do 2 (rewrite bind_value; cbn [fst snd]).
  rewrite (decode_encode _ _ Henc), bind_value. cbn [fst snd].
  rewrite (clean_string_fixed _ Hn). unfold sha256_hexdigest.
  rewrite Henc. reflexivity.
Qed.

Lemma abc_file_hashes_as_is :
  Text_load_data (File (ascii_bytes "abc"))
  = ([LoadData TextFileLoader (File (ascii_bytes "abc"))],
     inr {| doc_id := hexdigest (sha256 (ascii_bytes "abc"));
            content := lit "abc" |}).
Proof.
  exact (normal_text_file_hashes_as_is (ascii_bytes "abc") (lit "abc")
           eq_refl eq_refl).
Defined.

(** Whitespace at the end of a page does the work of the separating space. *)
Lemma re_sub_prepend p s t :
  re_sub_ws s = re_sub_ws t -> re_sub_in s = re_sub_in t ->
  re_sub_ws (p ++ s) = re_sub_ws (p ++ t)
  /\ re_sub_in (p ++ s) = re_sub_in (p ++ t).
Proof.
  intros H1 H2. induction p as [|c r [IH1 IH2]]; [split; assumption|].
  cbn [app re_sub_ws re_sub_in]. rewrite IH1, IH2. split; reflexivity.
Qed.

Lemma ends_space_last p :
  ends_space p = true -> exists p' w, p = p' ++ [w] /\ isspace w = true.
Proof.
  unfold ends_space. intros H.
  destruct (rev p) as [|w t] eqn:Hrev; [discriminate H|].
  exists (rev t), w. split; [|exact H].
  rewrite <- (rev_involutive p), Hrev. reflexivity.
Qed.

Lemma re_sub_concat_join pages :
  Forall (fun p => ends_space p = true) pages ->
  re_sub_ws (concat pages) = re_sub_ws (join [SP] pages)
  /\ re_sub_in (concat pages) = re_sub_in (join [SP] pages).
Proof.
  induction 1 as [|p rest Hp Hrest [IH1 IH2]]; [split; reflexivity|].
  destruct rest as [|q rest].
  - cbn [concat join]. rewrite app_nil_r. split; reflexivity.
  - rewrite join_cons2. cbn [concat] in *.
    apply ends_space_last in Hp as (p' & w & -> & Hw).
    rewrite <- !app_assoc. cbn [app].
    apply re_sub_prepend; cbn [re_sub_ws re_sub_in];
      rewrite Hw, isspace_SP, IH2; reflexivity.
Qed.

(** X22. When every page of the document has some visible text and its
    text ends in whitespace (extracted page text ends in a newline), the
    PDF loader returns the Normalizer applied to the concatenation of the
    page texts in page order, and the doc_id is the fingerprint of that
    normalized concatenation. *)
Theorem Pdf_content_of_terminated_pages E data doc log d :
  fitz_open E data = inr doc ->
  Pdf_load_data E (File data) = (log, inr d) ->
  Forall (fun p => all_space p = false /\ ends_space p = true)
         (map (page_text E doc) (seq 0 (page_count E doc))) ->
  content d = clean_string (concatenated_pages E doc)
  /\ sha256_hexdigest (clean_string (concatenated_pages E doc)) = ret (doc_id d).
Proof.
  intros Hopen Hrun Hpages. unfold concatenated_pages.
  set (pages := map (page_text E doc) (seq 0 (page_count E doc))) in *.
  assert (Hc : content d = clean_string (concat pages)).
  { rewrite (Pdf_returned_content E data doc log d Hopen Hrun). fold pages.
    rewrite <- clean_string_join
      by (eapply Forall_impl; [|exact Hpages]; cbv beta; tauto).
    assert (Hends : Forall (fun p => ends_space p = true) pages)
      by (eapply Forall_impl; [|exact Hpages]; cbv beta; tauto).
    rewrite !clean_string_trim.
    rewrite (proj1 (re_sub_concat_join pages Hends)). reflexivity. }
  split; [exact Hc|]. rewrite <- Hc.
  apply load_data_fingerprints with (E := E) (l := PdfFileLoader)
    (source := File data) (log := log) in Hrun as (encoded & Henc & ->).
  unfold sha256_hexdigest. rewrite Henc. reflexivity.
Qed.

Lemma two_lines_normalized_concatenation :
  lit "a b" = clean_string (concatenated_pages (printed two_lines) two_lines)
  /\ sha256_hexdigest
       (clean_string (concatenated_pages (printed two_lines) two_lines))
     = ret (lit "c8687a08aa5d6ed2044328fa6a697ab8e96dc34291e8c2034ae8c38e6fcc6d65").
Proof.
  apply (Pdf_content_of_terminated_pages (printed two_lines) [x25] two_lines
           [LoadData PdfFileLoader (File [x25]); FitzOpen [x25]]
           {| doc_id := lit "c8687a08aa5d6ed2044328fa6a697ab8e96dc34291e8c2034ae8c38e6fcc6d65";
              content := lit "a b" |}).
  - reflexivity.
  - vm_compute. reflexivity.
  - repeat constructor.
Defined.

Lemma generation_calls_app a b :
  generation_calls (a ++ b) = generation_calls a ++ generation_calls b.
Proof. unfold generation_calls. apply filter_app. Qed.

Lemma generation_calls_removelast log :
  generation_calls log = [] -> generation_calls (removelast log) = [].
Proof.
  induction log as [|ev rest IH]; [reflexivity|].
  intros H. destruct rest as [|ev' rest]; [reflexivity|].
  cbn [removelast]. unfold generation_calls in *. cbn [filter] in *.
  destruct ev; try discriminate H; apply IH; exact H.
Qed.

(** X21. No run of generate_mcqs_from_data calls the engine more than once,
    and an engine call, when there is one, is the last event of the run. *)
Theorem at_most_one_engine_call E source st num lo dl pt kw :
  let log := fst (generate_mcqs_from_data E source st num lo dl pt kw) in
  (length (generation_calls log) <= 1)%nat
  /\ generation_calls (removelast log) = [].
Proof.
  assert (Hcases : generate_mcqs_from_data E source st num lo dl pt kw
                   = ([], inl (ValueError unsupported))
                   \/ exists l, st = type_name l).
  { destruct (str_eqb st (lit "pdf")) eqn:H1;
      [right; exists PdfFileLoader; apply str_eqb_eq, H1|].
    destruct (str_eqb st (lit "text")) eqn:H2;
      [right; exists TextFileLoader; apply str_eqb_eq, H2|].
    destruct (str_eqb st (lit "url")) eqn:H3;
      [right; exists UrlLoader; apply str_eqb_eq, H3|].
    left. unfold generate_mcqs_from_data. rewrite H1, H2, H3. reflexivity. }
  destruct Hcases as [-> | [l ->]]; [split; [simpl; lia | reflexivity]|].
  rewrite generate_supported.
  pose proof (proj1 (load_data_quiet E l source)) as Hq.
  destruct (load_data E l source) as [before [e|d]]; cbn [fst] in Hq.
  - rewrite bind_raise. cbn [fst]. rewrite Hq.
    split; [simpl; lia | apply generation_calls_removelast, Hq].
  - rewrite bind_value. cbn [fst].
    destruct (existsb (String.eqb "topic") kw).
    + cbn [raise fst]. rewrite app_nil_r, Hq.
      split; [simpl; lia | apply generation_calls_removelast, Hq].
    + rewrite generate_mcq_call. cbv zeta. unfold call. cbn [fst].
      rewrite generation_calls_app, Hq, removelast_last.
      split; [simpl; lia | exact Hq].
Qed.

End AppMore.

(** ** The fingerprint's shape, the formatter's range, and the form *)

Module ShapeMore.
Import Text Utf8 Sha256 App Demo More TextFacts Utf8Facts AppFacts.

Lemma round_keeps_eight st kw : length st = 8%nat -> length (round st kw) = 8%nat.
Proof.
  destruct st as [|a [|b [|c [|d [|e [|f [|g [|h [|i t]]]]]]]]];
    try discriminate; reflexivity.
Qed.

Lemma rounds_keep_eight kws : forall st,
  length st = 8%nat -> length (fold_left round kws st) = 8%nat.
Proof.
  induction kws as [|kw r IH]; intros st H; [exact H|].
  cbn [fold_left]. apply IH, round_keeps_eight, H.
Qed.

Lemma compress_keeps_eight h block :
  length h = 8%nat -> length (compress h block) = 8%nat.
Proof.
  intros H. unfold compress.
  rewrite length_map, length_combine, (rounds_keep_eight _ _ H), H.
  reflexivity.
Qed.

Lemma blocks_keep_eight n : forall h bs,
  length h = 8%nat -> length (blocks n h bs) = 8%nat.
Proof.
  induction n as [|n IH]; intros h bs H; [exact H|].
  cbn [blocks]. apply IH, compress_keeps_eight, H.
Qed.

Lemma be_bytes_are_bytes n x : Forall (fun b => 0 <= b < 256) (be_bytes n x).
Proof.
  induction n as [|n IH]; cbn [be_bytes]; constructor; [|exact IH].
  apply Z.mod_pos_bound. reflexivity.
Qed.

Lemma length_be_bytes n x : length (be_bytes n x) = n.
Proof. induction n as [|n IH]; cbn [be_bytes length]; congruence. Qed.

Lemma length_flat_be_bytes ws :
  length (flat_map (be_bytes 4) ws) = (4 * length ws)%nat.
Proof.
  induction ws as [|w r IH]; [reflexivity|].
  cbn [flat_map]. rewrite length_app, length_be_bytes, IH. cbn [length]. lia.
Qed.

(** A SHA-256 digest is 32 bytes. *)
Lemma sha256_is_32_bytes data :
  length (sha256 data) = 32%nat /\ Forall (fun b => 0 <= b < 256) (sha256 data).
Proof.
  unfold sha256. split.
  - rewrite length_flat_be_bytes, blocks_keep_eight; reflexivity.
  - apply Forall_flat_map, Forall_forall. intros w _. apply be_bytes_are_bytes.
Qed.

Lemma hex_digit_is_hex d : 0 <= d < 16 -> is_hex (hex_digit d) = true.
Proof.
  intros H. unfold is_hex, hex_digit.
  destruct (Z.ltb_spec d 10).
  - apply orb_true_iff. left. apply andb_true_iff. split; apply Z.leb_le; lia.
  - apply orb_true_iff. right. apply andb_true_iff. split; apply Z.leb_le; lia.
Qed.

Lemma hexdigest_shape digest :
  Forall (fun b => 0 <= b < 256) digest ->
  length (hexdigest digest) = (2 * length digest)%nat
  /\ forallb is_hex (hexdigest digest) = true.
Proof.
  unfold hexdigest.
  induction 1 as [|b r Hb Hr [IH1 IH2]]; [split; reflexivity|].
  cbn [flat_map app length forallb]. rewrite IH1, IH2.
  rewrite !hex_digit_is_hex by (Z.div_mod_to_equations; lia).
  split; [lia | reflexivity].
Qed.

(** X15. Every doc_id a loader returns is a string of 64 lower-case
    hexadecimal digits. *)
Theorem doc_id_is_64_hex_digits E l source log d :
  load_data E l source = (log, inr d) ->
  length (doc_id d) = 64%nat /\ forallb is_hex (doc_id d) = true.
Proof.
  intros H. apply load_data_fingerprints in H as (data & _ & ->).
  destruct (sha256_is_32_bytes data) as [Hlen Hbytes].
  destruct (hexdigest_shape _ Hbytes) as [H1 H2].
  rewrite H1, Hlen. split; [reflexivity | exact H2].
Qed.

Lemma paris_doc_id_is_64_hex_digits :
  length (lit "557be7eca214f1889cdb6dfa348eb7c937648c9d6be72bfc1b8204adf7552a43")
  = 64%nat
  /\ forallb is_hex
       (lit "557be7eca214f1889cdb6dfa348eb7c937648c9d6be72bfc1b8204adf7552a43")
     = true.
Proof.
  exact (doc_id_is_64_hex_digits world TextFileLoader (File paris)
           [LoadData TextFileLoader (File paris)]
           {| doc_id := lit "557be7eca214f1889cdb6dfa348eb7c937648c9d6be72bfc1b8204adf7552a43";
              content := lit "Paris is the capital of France." |}
           ltac:(vm_compute; reflexivity)).
Defined.

(** The option loop returns for as long as [chr] is defined, and what it
    appends does not depend on what is already written. *)
Lemma chr_in_range j : 1 <= j <= 1114015 -> chr (96 + j) = ret [96 + j].
Proof.
  intros H. unfold chr.
  rewrite (proj2 (Z.leb_le 0 _)), (proj2 (Z.leb_le _ 1114111)) by lia.
  reflexivity.
Qed.

Lemma chr_out_of_range j : 1114015 < j -> chr (96 + j) = raise chr_error.
Proof.
  intros H. unfold chr.
  rewrite (proj2 (Z.leb_gt _ 1114111)) by lia. rewrite andb_false_r.
  reflexivity.
Qed.

Lemma format_options_returns opts : forall j,
  1 <= j -> j + Z.of_nat (length opts) - 1 <= 1114015 ->
  exists ls, forall out, format_options j opts out = ret (out ++ ls).
Proof.
  induction opts as [|opt rest IH]; intros j Hj Hlen.
  - exists []. intros out. rewrite app_nil_r. reflexivity.
  - cbn [length] in Hlen. rewrite Nat2Z.inj_succ in Hlen.
    destruct (IH (j + 1)) as [ls Hls]; [lia | lia |].
    exists (lit "   " ++ [96 + j] ++ lit ") " ++ opt ++ NL ++ ls).
    intros out. cbn [format_options].
    rewrite chr_in_range, bind_ret, Hls by lia.
    f_equal. rewrite <- !app_assoc. reflexivity.
Qed.

Lemma format_options_raises opts : forall j out,
  1 <= j -> opts <> [] -> 1114015 < j + Z.of_nat (length opts) - 1 ->
  format_options j opts out = raise chr_error.
Proof.
  induction opts as [|opt rest IH]; intros j out Hj Hne Hlen; [contradiction|].
  cbn [length] in Hlen. rewrite Nat2Z.inj_succ in Hlen.
  cbn [format_options].
  destruct (Z.le_gt_cases j 1114015) as [Hin | Hout].
  - rewrite chr_in_range, bind_ret by lia.
    apply IH; [lia | | lia].
    destruct rest; [simpl in Hlen; lia | discriminate].
  - rewrite chr_out_of_range by lia. reflexivity.
Qed.

Lemma format_loop_returns qs : forall i,
  forallb within_chr qs = true ->
  exists bs, forall out, format_loop i qs out = ret (out ++ bs).
Proof.
  induction qs as [|q rest IH]; intros i Hqs.
  - exists []. intros out. rewrite app_nil_r. reflexivity.
  - cbn [forallb] in Hqs. apply andb_prop in Hqs as [Hq Hrest].
    unfold within_chr in Hq. apply Z.leb_le in Hq.
    destruct (format_options_returns (options q) 1) as [ls Hls]; [lia | lia |].
    destruct (IH (i + 1) Hrest) as [bs Hbs].
    exists (str_of_int i ++ lit ". " ++ question q ++ NL ++ ls
            ++ lit "   Answer: " ++ correct_answer q ++ NL ++ NL ++ bs).
    intros out. cbn [format_loop].
    rewrite Hls, bind_ret, Hbs. f_equal. rewrite <- !app_assoc. reflexivity.
Qed.

Lemma format_loop_raises qs : forall i out,
  forallb within_chr qs = false -> format_loop i qs out = raise chr_error.
Proof.
  induction qs as [|q rest IH]; intros i out Hqs; [discriminate|].
  cbn [forallb] in Hqs. cbn [format_loop].
  destruct (within_chr q) eqn:Hq.
  - unfold within_chr in Hq. apply Z.leb_le in Hq.
    destruct (format_options_returns (options q) 1) as [ls Hls]; [lia | lia |].
    rewrite Hls, bind_ret. apply IH. exact Hqs.
  - unfold within_chr in Hq. apply Z.leb_gt in Hq.
    rewrite format_options_raises; [reflexivity | lia | | lia].
    destruct (options q); [simpl in Hq; lia | discriminate].
Qed.

Lemma within_chr_repeat q o n c :
  within_chr {| question := q; options := repeat o n; correct_answer := c |}
  = (Z.of_nat n <=? 1114015).
Proof. unfold within_chr. cbn [options]. rewrite repeat_length. reflexivity. Qed.

(** X16. The formatter returns a string exactly when no question has more
    than 1114015 options; past that, chr(96 + j) is undefined and the
    formatter raises its ValueError. *)
Theorem format_mcqs_within_chr qs :
  (forallb within_chr qs = true -> exists out, format_mcqs qs = ret out)
  /\ (forallb within_chr qs = false -> format_mcqs qs = raise chr_error).
Proof.
  split; intros H.
  - destruct (format_loop_returns qs 1 H) as [bs Hbs].
    exists bs. apply (Hbs []).
  - apply format_loop_raises, H.
Qed.

Lemma format_mcqs_at_both_ends :
  (exists out, format_mcqs [capital_question] = ret out)
  /\ format_mcqs [ {| question := lit "q";
                      options := repeat (lit "x") (N.to_nat 1114016);
                      correct_answer := lit "x" |} ]
     = raise chr_error.
Proof.
  split.
  - apply (proj1 (format_mcqs_within_chr [capital_question])). reflexivity.
  - apply (proj2 (format_mcqs_within_chr _)).
    cbn [forallb]. rewrite within_chr_repeat, N_nat_Z. reflexivity.
Defined.

Lemma bind_assoc {A B C} (m : M A) (f : A -> M B) (g : B -> M C) :
  bind (bind m f) g = bind m (fun a => bind (f a) g).
Proof.
  destruct m as [l1 [e|a]]; [reflexivity|].
  rewrite !bind_value. destruct (f a) as [l2 [e|b]]; cbn [fst snd].
  - rewrite bind_raise. reflexivity.
  - rewrite !bind_value. cbn [fst snd]. rewrite app_assoc. reflexivity.
Qed.

Lemma bind_ext {A B} (m : M A) (f g : A -> M B) :
  (forall a, f a = g a) -> bind m f = bind m g.
Proof.
  intros H. destruct m as [l [e|a]]; [reflexivity|].
  rewrite !bind_value, H. reflexivity.
Qed.

Lemma format_loop_app qs1 qs2 : forall i out,
  format_loop i (qs1 ++ qs2) out
  = (o <- format_loop i qs1 out ;;
     format_loop (i + Z.of_nat (length qs1)) qs2 o).
Proof.
  induction qs1 as [|q rest IH]; intros i out.
  - cbn [app format_loop length]. rewrite bind_ret, Z.add_0_r. reflexivity.
  - cbn [app format_loop length]. rewrite bind_assoc.
    apply bind_ext. intros fo. rewrite IH.
    apply bind_ext. intros o. f_equal. lia.
Qed.

(** X17. Formatting a list that continues another one: the output for the
    first part comes first, unchanged, and the second part follows, numbered
    from where the first part stopped. *)
Theorem format_mcqs_app qs1 qs2 o1 o2 :
  format_mcqs qs1 = ret o1 ->
  format_loop (1 + Z.of_nat (length qs1)) qs2 [] = ret o2 ->
  format_mcqs (qs1 ++ qs2) = ret (o1 ++ o2).
Proof.
  unfold format_mcqs. intros H1 H2.
  rewrite format_loop_app, H1, bind_ret.
  destruct (forallb within_chr qs2) eqn:Hqs.
  - destruct (format_loop_returns qs2 (1 + Z.of_nat (length qs1)) Hqs)
      as [bs Hbs].
    rewrite (Hbs []) in H2. injection H2 as ->. apply Hbs.
  - rewrite (format_loop_raises qs2 _ [] Hqs) in H2. discriminate H2.
Qed.

Lemma two_capital_questions :
  format_mcqs ([capital_question] ++ [capital_question])
  = ret ((lit "1. What is the capital of France?" ++ NL
          ++ lit "   a) Paris" ++ NL ++ lit "   b) Rome" ++ NL
          ++ lit "   c) Oslo" ++ NL ++ lit "   d) Bern" ++ NL
          ++ lit "   Answer: Paris" ++ NL ++ NL)
         ++ (lit "2. What is the capital of France?" ++ NL
             ++ lit "   a) Paris" ++ NL ++ lit "   b) Rome" ++ NL
             ++ lit "   c) Oslo" ++ NL ++ lit "   d) Bern" ++ NL
             ++ lit "   Answer: Paris" ++ NL ++ NL)).
Proof.
  apply (format_mcqs_app [capital_question] [capital_question]); reflexivity.
Defined.

End ShapeMore.

(** ** The form *)

Module MainMore.
Import Text Utf8 Sha256 App Demo More TextFacts Utf8Facts AppFacts AppMore ShapeMore.

Lemma bind_emit {B} ev (k : M B) :
  bind (emit ev) (fun _ => k) = (ev :: fst k, snd k).
Proof. unfold bind, emit. destruct k. reflexivity. Qed.

Ltac peel :=
  repeat (progress (rewrite ?bind_emit, ?bind_ret; cbn [fst snd])).

(** The events at the head of an explicit trace. *)
Ltac drawn log :=
  match log with
  | ?ev :: ?rest => let p := drawn rest in constr:(ev :: p)
  | _ => constr:(@nil event)
  end.

Ltac peel_in H :=
  repeat (progress (rewrite ?bind_emit, ?bind_ret in H; cbn [fst snd] in H)).

Lemma not_rendered log body :
  existsb renders_text log = false -> ~ In (St (st_text body)) log.
Proof.
  intros H Hin.
  assert (Ht : existsb renders_text log = true)
    by (apply existsb_exists; exists (St (st_text body)); split;
        [exact Hin | reflexivity]).
  congruence.
Qed.

Lemma format_mcqs_outcome qs :
  (exists out, format_mcqs qs = ret out) \/ format_mcqs qs = raise chr_error.
Proof.
  unfold format_mcqs. destruct (forallb within_chr qs) eqn:H.
  - left. destruct (format_loop_returns qs 1 H) as [bs Hbs].
    exists bs. apply (Hbs []).
  - right. apply format_loop_raises, H.
Qed.

(** One press of the button on an uploaded file: load, generate, show. *)
Lemma shown_by_file_run E l f num dl body :
  In (St (st_text body))
     (fst (mcqs <- generate_mcqs_from_data E (File f) (type_name l) num
                     (Str []) dl None [] ;;
           show E mcqs)) ->
  exists before d r qs,
    load_data E l (File f) = (before, inr d)
    /\ qna_generate_mcq E (content d) num dl default_template = inr r
    /\ questions E r = inr qs
    /\ format_mcqs qs = ret body.
Proof.
  rewrite generate_supported.
  pose proof (proj2 (load_data_quiet E l (File f))) as Hq.
  destruct (load_data E l (File f)) as [before [e|d]]; cbn [fst] in Hq.
  - rewrite !bind_raise. cbn [fst]. intros Hin.
    exfalso. exact (not_rendered _ _ Hq Hin).
  - rewrite bind_value. cbn [existsb fst snd].
    rewrite generate_mcq_call. cbv zeta. unfold call. cbn [fst snd].
    assert (Hpre : ~ In (St (st_text body))
                     (before ++ [GenerateMcq (content d) num dl default_template])).
    { intros Hin. apply in_app_or in Hin as [Hin | [Hin | []]];
        [exact (not_rendered _ _ Hq Hin) | discriminate Hin]. }
    destruct (qna_generate_mcq E (content d) num dl default_template)
      as [what|r] eqn:Hgen.
    + rewrite bind_raise. cbn [fst]. intros Hin. contradiction.
    + rewrite bind_value. cbn [fst]. unfold show.
      destruct (questions E r) as [what|qs] eqn:Hqs.
      * unfold raise. rewrite bind_raise. cbn [fst]. rewrite app_nil_r.
        intros Hin. contradiction.
      * rewrite bind_ret.
        destruct (format_mcqs_outcome qs) as [[out Hout] | Hout]; rewrite Hout.
        -- rewrite bind_ret. cbn [emit fst]. intros Hin.
           apply in_app_or in Hin as [Hin | [Hin | []]]; [contradiction|].
           injection Hin as ->. eauto 8.
        -- unfold raise. rewrite bind_raise. cbn [fst]. rewrite app_nil_r.
           intros Hin. contradiction.
Qed.

Lemma file_run_shows E l f num dl before d r qs out :
  load_data E l (File f) = (before, inr d) ->
  qna_generate_mcq E (content d) num dl default_template = inr r ->
  questions E r = inr qs ->
  format_mcqs qs = ret out ->
  (mcqs <- generate_mcqs_from_data E (File f) (type_name l) num
             (Str []) dl None [] ;;
   show E mcqs)
  = (before ++ [GenerateMcq (content d) num dl default_template;
                St (st_text out)],
     inr tt).
Proof.
  intros Hload Hgen Hqs Hout.
  rewrite generate_supported, Hload, bind_value. cbn [existsb fst snd].
  rewrite generate_mcq_call. cbv zeta. unfold call. rewrite Hgen.
  cbn [fst snd]. rewrite bind_value. unfold show.
  rewrite Hqs, bind_ret, Hout, bind_ret. cbn [emit fst snd].
  rewrite <- app_assoc. reflexivity.
Qed.

Lemma text_is_not_pdf : str_eqb (lit "text") (lit "pdf") = false.
Proof. reflexivity. Qed.

Lemma load_global_learning_objective :
  load_global "learning_objective" = ([], inl (NameError "learning_objective")).
Proof. reflexivity. Qed.

(** X18. Until the button is pressed, and as long as neither a file is
    uploaded nor an address typed, one run of the form only draws its
    widgets: it loads nothing, calls no engine, shows no text, and ends
    without an error. *)
Theorem main_waits_for_input E ui :
  button ui = false \/ (uploaded_file ui = None /\ url ui = []) ->
  snd (main E ui) = inr tt /\ forallb is_widget (fst (main E ui)) = true.
Proof.
  intros H. unfold main.
  destruct (api_key ui) as [k|]; [destruct (truthy k)|];
    destruct (str_eqb (source_type ui) (lit "pdf"));
    try destruct (str_eqb (source_type ui) (lit "text"));
    try destruct (str_eqb (source_type ui) (lit "url"));
    peel;
    (destruct H as [Hb | [Hup Hurl]];
     [ rewrite ?Hb; try destruct (uploaded_file ui);
       try destruct (truthy (url ui)); peel; split; reflexivity
     | rewrite ?Hup, ?Hurl; split; reflexivity ]).
Qed.

Lemma url_form_before_the_button :
  snd (main world {| api_key := None; source_type := lit "url"; num_mcqs := 3;
                     difficulty_level := lit "Hard"; uploaded_file := None;
                     url := lit "http://example.org"; button := false |})
  = inr tt
  /\ forallb is_widget
       (fst (main world {| api_key := None; source_type := lit "url";
                           num_mcqs := 3; difficulty_level := lit "Hard";
                           uploaded_file := None;
                           url := lit "http://example.org"; button := false |}))
     = true.
Proof.
  apply (main_waits_for_input world). left. reflexivity.
Defined.

(** X19. With a PDF or text file uploaded and the button pressed, when the
    loader, the engine, the questions attribute and the formatter all
    succeed, the run ends without an error and its trace is: widgets, the
    loader's trace, one engine call with the loaded content, the chosen
    count and difficulty and the default template, and one text element
    holding the formatted questions. *)
Theorem main_shows_formatted_questions E ui l f before d r qs out :
  l <> UrlLoader ->
  source_type ui = type_name l ->
  uploaded_file ui = Some f ->
  button ui = true ->
  load_data E l (File f) = (before, inr d) ->
  qna_generate_mcq E (content d) (num_mcqs ui) (difficulty_level ui)
    default_template = inr r ->
  questions E r = inr qs ->
  format_mcqs qs = ret out ->
  snd (main E ui) = inr tt
  /\ exists widgets,
       forallb is_widget widgets = true
       /\ fst (main E ui)
          = widgets ++ before
            ++ [GenerateMcq (content d) (num_mcqs ui) (difficulty_level ui)
                  default_template;
                St (st_text out)].
Proof.
  intros Hl Hst Hup Hb Hload Hgen Hqs Hout.
  pose proof (file_run_shows E l f (num_mcqs ui) (difficulty_level ui)
                before d r qs out Hload Hgen Hqs Hout) as Hrun.
  unfold main. rewrite Hst, Hup, Hb.
  destruct l; [| |contradiction]; cbn [type_name] in *;
    (destruct (api_key ui) as [k|]; [destruct (truthy k)|]);
    rewrite ?text_is_not_pdf, ?str_eqb_refl;
    peel; rewrite Hrun; cbn [fst snd];
    (split; [reflexivity|]);
    match goal with
    | |- exists w, _ /\ ?log = _ =>
        let p := drawn log in exists p; split; reflexivity
    end.
Qed.

Lemma text_session_shows_two_questions :
  snd (main world text_session) = inr tt
  /\ exists widgets,
       forallb is_widget widgets = true
       /\ fst (main world text_session)
          = widgets ++ [LoadData TextFileLoader (File paris)]
            ++ [GenerateMcq (lit "Paris is the capital of France.") 2
                  (lit "Easy") default_template;
                St (st_text
                      (match snd (format_mcqs
                                    (repeat {| question := lit "Paris is the capital of France.";
                                               options := four_options;
                                               correct_answer := lit "Paris" |} 2)) with
                       | inr out => out
                       | inl _ => []
                       end))].
Proof.
  apply (main_shows_formatted_questions world text_session TextFileLoader paris
           [LoadData TextFileLoader (File paris)]
           {| doc_id := lit "557be7eca214f1889cdb6dfa348eb7c937648c9d6be72bfc1b8204adf7552a43";
              content := lit "Paris is the capital of France." |}
           (repeat {| question := lit "Paris is the capital of France.";
                      options := four_options;
                      correct_answer := lit "Paris" |} 2)
           (repeat {| question := lit "Paris is the capital of France.";
                      options := four_options;
                      correct_answer := lit "Paris" |} 2));
    try discriminate; vm_compute; reflexivity.
Defined.

(** X20. Whatever text one run of the form shows is the formatter's output
    for the questions of the engine's result for the content loaded from the
    uploaded PDF or text file, after the button was pressed; nothing else is
    ever shown. *)
Theorem main_shows_only_engine_output E ui body :
  In (St (st_text body)) (fst (main E ui)) ->
  exists l f before d r qs,
    l <> UrlLoader
    /\ source_type ui = type_name l
    /\ uploaded_file ui = Some f
    /\ button ui = true
    /\ load_data E l (File f) = (before, inr d)
    /\ qna_generate_mcq E (content d) (num_mcqs ui) (difficulty_level ui)
         default_template = inr r
    /\ questions E r = inr qs
    /\ format_mcqs qs = ret body.
Proof.
  unfold main. intros Hin.
  assert (Hrun : exists l f,
             l <> UrlLoader /\ source_type ui = type_name l
             /\ uploaded_file ui = Some f /\ button ui = true
             /\ In (St (st_text body))
                  (fst (mcqs <- generate_mcqs_from_data E (File f) (type_name l)
                                  (num_mcqs ui) (Str []) (difficulty_level ui)
                                  None [] ;;
                        show E mcqs))).
  { destruct (str_eqb (source_type ui) (lit "pdf")) eqn:Hpdf;
      [|destruct (str_eqb (source_type ui) (lit "text")) eqn:Htext;
        [|destruct (str_eqb (source_type ui) (lit "url")) eqn:Hurl]];
      (destruct (api_key ui) as [k|]; [destruct (truthy k)|]);
      peel_in Hin;
      try destruct (uploaded_file ui) as [f|] eqn:Hup;
      try destruct (truthy (url ui));
      peel_in Hin;
      try destruct (button ui) eqn:Hb;
      rewrite ?load_global_learning_objective, ?bind_raise in Hin;
      peel_in Hin; cbn [ret fst In] in Hin;
      repeat (destruct Hin as [Hin | Hin]; [discriminate Hin|]);
      try contradiction.
    all: first
      [ exists PdfFileLoader, f;
        (repeat split; [discriminate | apply str_eqb_eq; exact Hpdf | exact Hin])
      | exists TextFileLoader, f;
        (repeat split; [discriminate | apply str_eqb_eq; exact Htext | exact Hin]) ]. }
  destruct Hrun as (l & f & Hl & Hst & Hup & Hb & Hshown).
  apply shown_by_file_run in Hshown as (before & d & r & qs & H1 & H2 & H3 & H4).
  exists l, f, before, d, r, qs. repeat split; assumption.
Qed.

Lemma text_session_shows_engine_output :
  exists l f before d r qs,
    l <> UrlLoader
    /\ source_type text_session = type_name l
    /\ uploaded_file text_session = Some f
    /\ button text_session = true
    /\ load_data world l (File f) = (before, inr d)
    /\ qna_generate_mcq world (content d) (num_mcqs text_session)
         (difficulty_level text_session) default_template = inr r
    /\ questions world r = inr qs
    /\ format_mcqs qs
       = ret (match snd (format_mcqs
                           (repeat {| question := lit "Paris is the capital of France.";
                                      options := four_options;
                                      correct_answer := lit "Paris" |} 2)) with
              | inr out => out
              | inl _ => []
              end).
Proof.
  apply (main_shows_only_engine_output world text_session).
  vm_compute. do 9 right. left. reflexivity.
Defined.

End MainMore.
